(** * The Diversey SDS downloader and its PDF validator

    A shallow embedding of [main.py] (catalog parsing, file naming and the
    download of one document) and of [pdf_validator.py] (validation of one
    file, removal, the directory walk and the sweep), with the properties
    of the specification stated and proved about the embedding.

    Python's [str] is modelled as [list ascii]: a sequence of code points
    in the range U+0000..U+00FF.  The character tables below are those of
    CPython for that range.  Exceptions are values of [exn], carried by
    [result]. *)

From Stdlib Require Import Ascii String List ZArith NArith Lia Bool.
From stdpp Require Import gmap strings list fin_maps.
Import ListNotations.

Local Open Scope bool_scope.
Set Warnings "-register-all".

(** ** Python values and the string operations the programs use *)

Module Py.

Abbreviation str := (list ascii).

(** A string literal of the source. *)
Definition lit (s : string) : str := list_ascii_of_string s.

Inductive exn :=
| JSONDecodeError
| AttributeError
| TypeError
| KeyError
| IndexError
| RecursionError
| RuntimeError
| ValueError
| FileNotFoundError
| PermissionError
| IsADirectoryError.

Inductive result (A : Type) :=
| Ok (a : A)
| Raise (e : exn).
Arguments Ok {A} a.
Arguments Raise {A} e.

Definition bind {A B} (r : result A) (k : A -> result B) : result B :=
  match r with
  | Ok a => k a
  | Raise e => Raise e
  end.

Definition code (c : ascii) : N := N_of_ascii c.

Definition in_range (lo hi : N) (c : ascii) : bool :=
  (lo <=? code c)%N && (code c <=? hi)%N.

Definition is_code (n : N) (c : ascii) : bool := (code c =? n)%N.

Definition ascii_upper (c : ascii) : bool := in_range 65 90 c.
Definition ascii_lower (c : ascii) : bool := in_range 97 122 c.
Definition ascii_digit (c : ascii) : bool := in_range 48 57 c.

(** [str.isspace] on one character: TAB..CR, FS..US, SPACE, NEL, NBSP. *)
Definition isspace (c : ascii) : bool :=
  in_range 9 13 c || in_range 28 32 c || is_code 133 c || is_code 160 c.

(** The alphanumeric class of the [re] module for [str] patterns:
    letters and everything numeric.  Above U+007F that is
    feminine/masculine ordinal, micro sign, superscript digits, vulgar
    fractions and the accented letters (all but the multiplication and
    division signs). *)
Definition isalnum (c : ascii) : bool :=
  ascii_upper c || ascii_lower c || ascii_digit c
  || is_code 170 c || in_range 178 179 c || is_code 181 c
  || in_range 185 186 c || in_range 188 190 c
  || in_range 192 214 c || in_range 216 246 c || in_range 248 255 c.

(** [\w] *)
Definition is_word (c : ascii) : bool := isalnum c || is_code 95 c.

(** [str.lower] on one character. *)
Definition lower_char (c : ascii) : ascii :=
  if ascii_upper c || in_range 192 214 c || in_range 216 222 c
  then ascii_of_N (code c + 32)
  else c.

Definition lower (s : str) : str := map lower_char s.

Definition ascii_eqb (a b : ascii) : bool := Ascii.eqb a b.

Fixpoint str_eqb (s t : str) : bool :=
  match s, t with
  | [], [] => true
  | a :: s', b :: t' => ascii_eqb a b && str_eqb s' t'
  | _, _ => false
  end.

(** [s.startswith(p)] *)
Fixpoint startswith (s p : str) : bool :=
  match p, s with
  | [], _ => true
  | a :: p', b :: s' => ascii_eqb a b && startswith s' p'
  | _ :: _, [] => false
  end.

(** [s.endswith(p)] *)
Definition endswith (s p : str) : bool := startswith (rev s) (rev p).

(** The rest of [s] after the prefix [p], when [s] starts with [p]. *)
Fixpoint after_prefix (p s : str) : option str :=
  match p, s with
  | [], _ => Some s
  | a :: p', b :: s' => if ascii_eqb a b then after_prefix p' s' else None
  | _ :: _, [] => None
  end.

(** [p in s] *)
Fixpoint contains (s p : str) : bool :=
  startswith s p ||
  match s with
  | [] => false
  | _ :: s' => contains s' p
  end.

Fixpoint take_while (f : ascii -> bool) (s : str) : str :=
  match s with
  | [] => []
  | c :: s' => if f c then c :: take_while f s' else []
  end.

Fixpoint drop_while (f : ascii -> bool) (s : str) : str :=
  match s with
  | [] => []
  | c :: s' => if f c then drop_while f s' else s
  end.

(** [s.split(sep)] for a separator of one character: the pieces between
    the separators, never an empty list. *)
Fixpoint split (sep : ascii) (s : str) : list str :=
  match s with
  | [] => [[]]
  | c :: s' =>
      if ascii_eqb c sep then [] :: split sep s'
      else match split sep s' with
           | [] => [[c]]
           | piece :: pieces => (c :: piece) :: pieces
           end
  end.

(** [sep.join(pieces)] for a separator of one character. *)
Fixpoint join (sep : ascii) (pieces : list str) : str :=
  match pieces with
  | [] => []
  | [p] => p
  | p :: ps => p ++ sep :: join sep ps
  end.

(** [s.strip()] *)
Definition lstrip (s : str) : str := drop_while isspace s.
Definition rstrip (s : str) : str := rev (drop_while isspace (rev s)).
Definition strip (s : str) : str := rstrip (lstrip s).

(** Values produced by [json.loads].  A float is kept only as its truth
    value (whether it is non-zero), the one observation the program makes
    of a number.  A dict is the list of its items in insertion order,
    with keys that are pairwise distinct. *)
Inductive value :=
| PyNone
| PyBool (b : bool)
| PyInt (z : Z)
| PyFloat (nonzero : bool)
| PyStr (s : str)
| PyList (l : list value)
| PyDict (items : list (str * value)).

(** [d.get(key, default)] on the items of a dict. *)
Fixpoint dict_get (items : list (str * value)) (key : str) (default : value) : value :=
  match items with
  | [] => default
  | (k, v) :: rest => if str_eqb k key then v else dict_get rest key default
  end.

(** [d[key] = v] *)
Fixpoint dict_set (items : list (str * value)) (key : str) (v : value) : list (str * value) :=
  match items with
  | [] => [(key, v)]
  | (k, w) :: rest =>
      if str_eqb k key then (k, v) :: rest else (k, w) :: dict_set rest key v
  end.

(** Truth value of an object, as [if x] and [x and y] test it. *)
Definition truthy (v : value) : bool :=
  match v with
  | PyNone => false
  | PyBool b => b
  | PyInt z => negb (z =? 0)%Z
  | PyFloat nonzero => nonzero
  | PyStr s => negb (Nat.eqb (length s) 0)
  | PyList l => negb (Nat.eqb (length l) 0)
  | PyDict items => negb (Nat.eqb (length items) 0)
  end.

(** [x.get(key, default)]: only a dict has the method. *)
Definition get (v : value) (key : str) (default : value) : result value :=
  match v with
  | PyDict items => Ok (dict_get items key default)
  | _ => Raise AttributeError
  end.

(** [iter(x)], run to the end: the elements of a list, the characters of
    a string, the keys of a dict; anything else is not iterable. *)
Definition iterate (v : value) : result (list value) :=
  match v with
  | PyList l => Ok l
  | PyStr s => Ok (map (fun c => PyStr [c]) s)
  | PyDict items => Ok (map (fun kv => PyStr (fst kv)) items)
  | _ => Raise TypeError
  end.

(** [len(x)] *)
Definition len (v : value) : result nat :=
  match v with
  | PyList l => Ok (length l)
  | PyStr s => Ok (length s)
  | PyDict items => Ok (length items)
  | _ => Raise TypeError
  end.

(** [x[0]]: the keys of a decoded JSON object are strings, so [0] is
    never a key of a dict. *)
Definition item0 (v : value) : result value :=
  match v with
  | PyList (x :: _) => Ok x
  | PyStr (c :: _) => Ok (PyStr [c])
  | PyList [] => Raise IndexError
  | PyStr [] => Raise IndexError
  | PyDict _ => Raise KeyError
  | _ => Raise TypeError
  end.

(** [sep.join(pieces)] for a separator of any length. *)
Fixpoint join_str (sep : str) (pieces : list str) : str :=
  match pieces with
  | [] => []
  | [p] => p
  | p :: ps => p ++ sep ++ join_str sep ps
  end.

(** [str.isupper] on one character: the capital letters, those with an
    accent among them. *)
Definition isupper (c : ascii) : bool :=
  ascii_upper c || in_range 192 214 c || in_range 216 222 c.

End Py.

(** ** A decoder for the JSON fragment of the catalog

    [json.loads] belongs to Python's library; the extraction below takes
    the decoder as an argument.  This one reads objects, arrays, strings
    without escapes, integers and the three literals, which is enough to
    run the extraction on the text of a concrete catalog.  It is not
    Python's decoder outside that fragment: a string with an escape, a
    number with a fraction or an exponent and the names of the special
    floats are refused here, and no integer is too long for it.  It is
    applied to texts of the fragment only. *)

Module Json.
Import Py.

Definition dquote : ascii := ascii_of_N 34.

Definition is_ws (c : ascii) : bool :=
  is_code 32 c || is_code 9 c || is_code 10 c || is_code 13 c.

Definition skip_ws (s : str) : str := drop_while is_ws s.

(** The characters of a string up to the closing quote. *)
Fixpoint read_string (s : str) : option (str * str) :=
  match s with
  | [] => None
  | c :: s' =>
      if ascii_eqb c dquote then Some ([], s')
      else if is_code 92 c || (code c <? 32)%N then None
      else match read_string s' with
           | Some (body, rest) => Some (c :: body, rest)
           | None => None
           end
  end.

Definition digit_value (c : ascii) : Z := Z.of_N (code c) - 48.

Fixpoint read_digits (acc : Z) (s : str) : Z * str :=
  match s with
  | c :: s' => if ascii_digit c then read_digits (10 * acc + digit_value c) s' else (acc, s)
  | [] => (acc, s)
  end.

Definition read_int (s : str) : option (value * str) :=
  match s with
  | c :: s' =>
      if is_code 48 c then Some (PyInt 0, s')
      else if ascii_digit c then
        let '(n, rest) := read_digits 0 s in Some (PyInt n, rest)
      else if is_code 45 c then
        match s' with
        | d :: s'' =>
            if is_code 48 d then Some (PyInt 0, s'')
            else if ascii_digit d then
              let '(n, rest) := read_digits 0 s' in Some (PyInt (- n), rest)
            else None
        | [] => None
        end
      else None
  | [] => None
  end.

Definition read_literal (s : str) : option (value * str) :=
  match after_prefix (lit "null") s with
  | Some rest => Some (PyNone, rest)
  | None =>
      match after_prefix (lit "true") s with
      | Some rest => Some (PyBool true, rest)
      | None =>
          match after_prefix (lit "false") s with
          | Some rest => Some (PyBool false, rest)
          | None => read_int s
          end
      end
  end.

Inductive mode :=
| MValue
| MElements (acc : list value)
| MMembers (acc : list (str * value)).

Fixpoint parse (fuel : nat) (m : mode) (s : str) : option (value * str) :=
  match fuel with
  | O => None
  | S fuel' =>
      match m with
      | MValue =>
          match skip_ws s with
          | c :: r =>
              if is_code 123 c then
                match skip_ws r with
                | c' :: r' =>
                    if is_code 125 c' then Some (PyDict [], r')
                    else parse fuel' (MMembers []) r
                | [] => None
                end
              else if is_code 91 c then
                match skip_ws r with
                | c' :: r' =>
                    if is_code 93 c' then Some (PyList [], r')
                    else parse fuel' (MElements []) r
                | [] => None
                end
              else if ascii_eqb c dquote then
                match read_string r with
                | Some (body, rest) => Some (PyStr body, rest)
                | None => None
                end
              else read_literal (c :: r)
          | [] => None
          end
      | MElements acc =>
          match parse fuel' MValue s with
          | Some (v, r) =>
              match skip_ws r with
              | c :: r' =>
                  if is_code 44 c then parse fuel' (MElements (acc ++ [v])) r'
                  else if is_code 93 c then Some (PyList (acc ++ [v]), r')
                  else None
              | [] => None
              end
          | None => None
          end
      | MMembers acc =>
          match skip_ws s with
          | c :: r =>
              if ascii_eqb c dquote then
                match read_string r with
                | Some (key, r1) =>
                    match skip_ws r1 with
                    | c1 :: r2 =>
                        if is_code 58 c1 then
                          match parse fuel' MValue r2 with
                          | Some (v, r3) =>
                              match skip_ws r3 with
                              | c3 :: r4 =>
                                  if is_code 44 c3
                                  then parse fuel' (MMembers (dict_set acc key v)) r4
                                  else if is_code 125 c3
                                  then Some (PyDict (dict_set acc key v), r4)
                                  else None
                              | [] => None
                              end
                          | None => None
                          end
                        else None
                    | [] => None
                    end
                | None => None
                end
              else None
          | [] => None
          end
      end
  end.

Definition decode (s : str) : result value :=
  match parse (S (2 * length s)) MValue s with
  | Some (v, rest) =>
      match skip_ws rest with
      | [] => Ok v
      | _ :: _ => Raise JSONDecodeError
      end
  | None => Raise JSONDecodeError
  end.

(** [s] between double quotes, to write JSON text. *)
Definition quoted (s : string) : str := dquote :: lit s ++ [dquote].

End Json.

(** ** The file system, as the two programs see it *)

Module Fs.
Import Py.

Inductive node :=
| File (content : list Byte.byte)
| Directory.

(** [nodes] tells what is at each path.  [locked] holds the paths at which
    the system refuses to create, truncate or remove a file (a read-only or
    missing directory, a protected file). *)
Record disk := Disk {
  nodes : gmap str node;
  locked : gset str
}.

(** [os.path.isfile] *)
Definition isfile (d : disk) (path : str) : bool :=
  match nodes d !! path with
  | Some (File _) => true
  | _ => false
  end.

(** [os.path.exists] *)
Definition path_exists (d : disk) (path : str) : bool :=
  match nodes d !! path with
  | Some _ => true
  | None => false
  end.

(** [open(path, "wb")]: the file is created, or emptied when it is there. *)
Definition open_wb (d : disk) (path : str) : result disk :=
  match nodes d !! path with
  | Some Directory => Raise IsADirectoryError
  | _ =>
      if decide (path ∈ locked d) then Raise PermissionError
      else Ok (Disk (<[path := File []]> (nodes d)) (locked d))
  end.

(** [file_handler.write(chunk)] on the file opened at [path]. *)
Definition write (d : disk) (path : str) (chunk : list Byte.byte) : disk :=
  match nodes d !! path with
  | Some (File content) =>
      Disk (<[path := File (content ++ chunk)]> (nodes d)) (locked d)
  | _ => d
  end.

(** [os.remove] *)
Definition remove (d : disk) (path : str) : result disk :=
  match nodes d !! path with
  | None => Raise FileNotFoundError
  | Some Directory => Raise IsADirectoryError
  | Some (File _) =>
      if decide (path ∈ locked d) then Raise PermissionError
      else Ok (Disk (delete path (nodes d)) (locked d))
  end.

Definition slash : ascii := ascii_of_N 47.
Definition dot : ascii := ascii_of_N 46.

(** [os.path.join(a, b)] (POSIX) *)
Definition path_join (a b : str) : str :=
  if startswith b [slash] then b
  else if Nat.eqb (length a) 0 || endswith a [slash] then a ++ b
  else a ++ slash :: b.

(** The count of leading slashes that [os.path.normpath] keeps. *)
Definition initial_slashes (path : str) : nat :=
  if startswith path [slash] then
    if startswith path [slash; slash] && negb (startswith path [slash; slash; slash])
    then 2 else 1
  else 0.

(** One turn of the loop of [normpath] over the components; [new_comps]
    is in the order of the source, the latest component last. *)
Definition normpath_step (slashes : nat) (new_comps : list str) (comp : str)
  : list str :=
  if str_eqb comp [] || str_eqb comp [dot] then new_comps
  else if negb (str_eqb comp [dot; dot])
          || (Nat.eqb slashes 0 && Nat.eqb (length new_comps) 0)
          || (negb (Nat.eqb (length new_comps) 0)
              && str_eqb (List.last new_comps []) [dot; dot])
  then new_comps ++ [comp]
  else removelast new_comps.

(** [os.path.normpath] *)
Definition normpath (path : str) : str :=
  match path with
  | [] => [dot]
  | _ :: _ =>
      let slashes := initial_slashes path in
      let comps := fold_left (normpath_step slashes) (split slash path) [] in
      match repeat slash slashes ++ join slash comps with
      | [] => [dot]
      | normed => normed
      end
  end.

(** [os.path.abspath]; [cwd] is the working directory, [None] when it is
    gone, in which case [os.getcwd] raises. *)
Definition abspath (cwd : option str) (path : str) : result str :=
  if startswith path [slash] then Ok (normpath path)
  else match cwd with
       | Some dir => Ok (normpath (path_join dir path))
       | None => Raise FileNotFoundError
       end.

(** A directory tree, as [os.walk] reads it: the entries of a directory in
    the order in which the system lists them.  A directory that cannot be
    listed has [readable = false]. *)
Inductive tree :=
| FileEntry
| DirEntry (readable : bool) (entries : list (str * tree)).

Definition is_dir (t : tree) : bool :=
  match t with
  | DirEntry _ _ => true
  | FileEntry => false
  end.

Definition dirnames (entries : list (str * tree)) : list str :=
  map fst (List.filter (fun e => is_dir (snd e)) entries).

Definition filenames (entries : list (str * tree)) : list str :=
  map fst (List.filter (fun e => negb (is_dir (snd e))) entries).

(** [os.walk(top)], top down, errors of listing ignored: the triples
    (directory, names of its subdirectories, names of its other entries). *)
Fixpoint walk (top : str) (t : tree) : list (str * list str * list str) :=
  match t with
  | FileEntry => []
  | DirEntry false _ => []
  | DirEntry true entries =>
      (top, dirnames entries, filenames entries) ::
      (fix below (es : list (str * tree)) : list (str * list str * list str) :=
         match es with
         | [] => []
         | (name, child) :: es' =>
             (if is_dir child then walk (path_join top name) child else [])
             ++ below es'
         end) entries
  end.

(** The two ways in which [os.makedirs] fails here. *)
Inductive makedirs_error :=
| FileExistsError
| MakedirsRefused.

(** [os.makedirs(path, mode, exist_ok=True)] for a path of one component:
    a directory that is there is left as it is, a file in its place is an
    error. *)
Definition makedirs (d : disk) (path : str) : makedirs_error + disk :=
  match nodes d !! path with
  | Some Directory => inr d
  | Some (File _) => inl FileExistsError
  | None =>
      if decide (path ∈ locked d) then inl MakedirsRefused
      else inr (Disk (<[path := Directory]> (nodes d)) (locked d))
  end.

(** [os.path.basename]: what follows the last slash. *)
Definition basename (path : str) : str :=
  rev (take_while (fun c => negb (ascii_eqb c slash)) (rev path)).

End Fs.

(** ** [main.py] *)

Module Main.
Import Py.

(** The body of the loop of [extract_pdf_document_ids] for one row. *)
Definition extract_row (data_row : value) (pdf_document_id_list : list str)
  : result (list str) :=
  if truthy data_row then
    bind (len data_row) (fun n =>
      if (0 <? n)%nat then
        bind (item0 data_row) (fun document_id =>
          match document_id with
          | PyStr s =>
              if endswith s (lit "_PDF")
              then Ok (pdf_document_id_list ++ [s])
              else Ok pdf_document_id_list
          | _ => Raise AttributeError
          end)
      else Ok pdf_document_id_list)
  else Ok pdf_document_id_list.

Fixpoint extract_rows (record_data : list value) (pdf_document_id_list : list str)
  : result (list str) :=
  match record_data with
  | [] => Ok pdf_document_id_list
  | data_row :: rest =>
      bind (extract_row data_row pdf_document_id_list) (extract_rows rest)
  end.

Definition extract_pdf_document_ids (json_loads : str -> result value)
  (raw_json_input : str) : result (list str) :=
  match json_loads raw_json_input with
  | Raise JSONDecodeError => Ok []
  | Raise e => Raise e
  | Ok api_response =>
      bind (get api_response (lit "data") (PyDict [])) (fun data =>
      bind (get data (lit "Data") (PyList [])) (fun record_data =>
      bind (iterate record_data) (fun rows =>
      extract_rows rows [])))
  end.

Definition newline : ascii := ascii_of_N 10.
Definition underscore : ascii := ascii_of_N 95.

(** The search of [url] for the pattern that is the literal [content=]
    followed by a group of any characters, as group 1 of the match: the
    leftmost place where the literal occurs, then as many characters as the
    dot takes, which is all of them up to a line feed. *)
Fixpoint re_search_content (url : str) : option str :=
  match after_prefix (lit "content=") url with
  | Some rest => Some (take_while (fun c => negb (ascii_eqb c newline)) rest)
  | None =>
      match url with
      | [] => None
      | _ :: url' => re_search_content url'
      end
  end.

(** The class of the substitution: neither a word character, nor a
    period, nor a hyphen. *)
Definition unsafe_char (c : ascii) : bool :=
  negb (is_word c || is_code 46 c || is_code 45 c).

(** [re.sub] of one or more characters of the class by an underscore:
    scanning from the left, a match starts at a character of the class and
    takes all of those that follow it; [in_match] says that the scan is
    inside a match, whose replacement is already written. *)
Fixpoint re_sub_unsafe (in_match : bool) (filename : str) : str :=
  match filename with
  | [] => []
  | c :: rest =>
      if unsafe_char c then
        if in_match then re_sub_unsafe true rest
        else underscore :: re_sub_unsafe true rest
      else c :: re_sub_unsafe false rest
  end.

Definition url_to_filename (url : str) : str :=
  let safe_name :=
    match re_search_content url with
    | Some group1 =>
        let filename := strip (hd [] (split (ascii_of_N 38) group1)) in
        re_sub_unsafe false filename
    | None => lit "downloaded_file"
    end in
  if negb (endswith (lower safe_name) (lit ".pdf"))
  then safe_name ++ lit ".pdf"
  else safe_name.

(** [file_exists] *)
Definition file_exists (d : Fs.disk) (path : str) : bool := Fs.isfile d path.

(** The exceptions of [requests] that the program meets; all of them are
    [RequestException]s. *)
Inductive request_exception :=
| ReadTimeout
| ConnectTimeout
| ConnectionError
| ChunkedEncodingError
| HTTPError.

(** A response read as a stream: its status, its [Content-Type] header if
    any, the chunks that [iter_content] yields and, after them, the end of
    the body ([None]) or the exception that breaks the stream. *)
Record response := Response {
  status_code : Z;
  content_type : option str;
  chunks : list (list Byte.byte);
  stream_error : option request_exception
}.

(** What [requests.get] gives. *)
Inductive exchange :=
| NoResponse (error : request_exception)
| Got (r : response).

(** The store of files and the requests sent so far, oldest first. *)
Record world := World {
  files : Fs.disk;
  requests : list str
}.

(** The line that [download_pdf] logs before it returns. *)
Inductive report :=
| Skipped
| TimedOut
| DownloadFailed
| AccessDenied
| InvalidContentType
| EmptyDownload
| Downloaded (bytes : nat)
| WriteFailed.

Definition pdf_base_url : str :=
  lit "https://sds.diversey.com/MyDocuments/DownloadSingleFile?content=".

(** [response.raise_for_status()] *)
Definition raise_for_status (r : response) : option request_exception :=
  if (400 <=? status_code r)%Z && (status_code r <? 600)%Z
  then Some HTTPError
  else None.

(** [response.content]: the whole body, or the exception of the stream. *)
Definition content (r : response) : request_exception + list Byte.byte :=
  match stream_error r with
  | Some e => inl e
  | None => inr (concat (chunks r))
  end.

(** The handler of [RequestException]. *)
Definition request_failed (e : request_exception) : report :=
  match e with
  | ReadTimeout => TimedOut
  | _ => DownloadFailed
  end.

(** The loop over [iter_content]. *)
Fixpoint write_chunks (d : Fs.disk) (full_path : str)
  (body : list (list Byte.byte)) (bytes_written : nat) : Fs.disk * nat :=
  match body with
  | [] => (d, bytes_written)
  | chunk :: rest =>
      match chunk with
      | [] => write_chunks d full_path rest bytes_written
      | _ :: _ =>
          write_chunks (Fs.write d full_path chunk) full_path rest
            (bytes_written + length chunk)
      end
  end.

(** [download_pdf].  [requests_get url cookie] is the answer of the server
    and [decode] the decoding of a body as UTF-8 that ignores errors. *)
Definition download_pdf (requests_get : str -> str -> exchange)
  (decode : list Byte.byte -> str)
  (pdf_id cookie_value destination_directory : str) (w : world)
  : report * world :=
  let pdf_url := pdf_base_url ++ pdf_id in
  let clean_filename := url_to_filename pdf_url in
  let full_path := Fs.path_join destination_directory clean_filename in
  if file_exists (files w) full_path then (Skipped, w)
  else
    let sent := requests w ++ [pdf_url] in
    match requests_get pdf_url cookie_value with
    | NoResponse e => (request_failed e, World (files w) sent)
    | Got response =>
        match raise_for_status response with
        | Some e => (request_failed e, World (files w) sent)
        | None =>
            let content_type_header := default [] (content_type response) in
            if negb (contains content_type_header (lit "application/pdf")) then
              match content response with
              | inl e => (request_failed e, World (files w) sent)
              | inr body =>
                  let html_content := decode body in
                  if contains html_content (lit "Login")
                     || contains (lower html_content) (lit "access denied")
                  then (AccessDenied, World (files w) sent)
                  else (InvalidContentType, World (files w) sent)
              end
            else
              match Fs.open_wb (files w) full_path with
              | Raise _ => (WriteFailed, World (files w) sent)
              | Ok opened =>
                  let '(written, bytes_written) :=
                    write_chunks opened full_path (chunks response) 0 in
                  match stream_error response with
                  | Some e => (request_failed e, World written sent)
                  | None =>
                      if Nat.eqb bytes_written 0 then
                        match Fs.remove written full_path with
                        | Ok removed => (EmptyDownload, World removed sent)
                        | Raise _ => (WriteFailed, World written sent)
                        end
                      else (Downloaded bytes_written, World written sent)
                  end
              end
        end
    end.

(** [create_directory] *)
Definition create_directory (d : Fs.disk) (path : str)
  : Fs.makedirs_error + Fs.disk :=
  Fs.makedirs d path.

(** The cookies of the browser, each as [name=value], joined into one
    header. *)
Definition cookie_header (all_cookies : list (str * str)) : str :=
  join_str (lit "; ")
    (map (fun c => fst c ++ lit "=" ++ snd c) all_cookies).

(** [start_browser_and_get_auth_cookies], from the point where the browser
    has done its part: [browser] holds the cookies of the session as pairs
    of name and value, or is [None] when Selenium raised one of the
    exceptions that the function catches.  The function returns the cookie
    string (beside a driver that is always [None]), or [None]. *)
Definition start_browser_and_get_auth_cookies
  (browser : option (list (str * str))) : option str :=
  match browser with
  | None => None
  | Some all_cookies =>
      match cookie_header all_cookies with
      | [] => None
      | cookie_string => Some cookie_string
      end
  end.

(** The line that [fetch_json_data] logs. *)
Inductive fetch_report :=
| Fetched
| AuthenticationFailed
| FetchTimedOut
| FetchFailed.

Definition api_base_url : str :=
  lit "https://sds.diversey.com/WebViewer/Results/GetResultGrid?".

(** The address of the catalog, with the parameters of the source. *)
Definition target_url (underscore_timestamp : str) : str :=
  let page := lit "1" in
  let row_count := lit "10000" in
  let sort_order := lit "1" in
  let sort_field := lit "" in
  let search_key := lit "Main" in
  api_base_url
  ++ lit "page=" ++ page ++ lit "&rowCount=" ++ row_count
  ++ lit "&sortOrder=" ++ sort_order ++ lit "&"
  ++ lit "sortField=" ++ sort_field ++ lit "&searchKey=" ++ search_key
  ++ lit "&_=" ++ underscore_timestamp.

Definition fetch_failed (e : request_exception) : fetch_report :=
  match e with
  | ReadTimeout => FetchTimedOut
  | _ => FetchFailed
  end.

(** [fetch_json_data].  The request is not streamed, so [requests.get]
    reads the body and an exception of the stream leaves [response] at
    [None]; [text_of] is the decoding behind [response.text]. *)
Definition fetch_json_data (requests_get : str -> str -> exchange)
  (text_of : list Byte.byte -> str)
  (cookie_value underscore_timestamp : str) (w : world)
  : fetch_report * option str * world :=
  let url := target_url underscore_timestamp in
  let sent := World (files w) (requests w ++ [url]) in
  match requests_get url cookie_value with
  | NoResponse e => (fetch_failed e, None, sent)
  | Got response =>
      match content response with
      | inl e => (fetch_failed e, None, sent)
      | inr body =>
          match raise_for_status response with
          | Some e =>
              if (status_code response =? 401)%Z || (status_code response =? 403)%Z
              then (AuthenticationFailed, None, sent)
              else (fetch_failed e, None, sent)
          | None => (Fetched, Some (text_of body), sent)
          end
      end
  end.

(** The loop of [main] over the identifiers. *)
Fixpoint download_all (requests_get : str -> str -> exchange)
  (decode : list Byte.byte -> str) (cookie_value output_dir : str)
  (pdf_ids : list str) (w : world) : world :=
  match pdf_ids with
  | [] => w
  | doc_id :: rest =>
      download_all requests_get decode cookie_value output_dir rest
        (snd (download_pdf requests_get decode doc_id cookie_value output_dir w))
  end.

(** How a run of [main] ends: one of its four returns, or an exception
    that leaves it, from [create_directory] or from
    [extract_pdf_document_ids]. *)
Inductive run_end :=
| SessionFailed
| DataMissing
| NoIdentifiers
| AllCompleted
| DirectoryError (e : Fs.makedirs_error)
| ExtractionError (e : exn).

(** [main].  [underscore_value] is the time stamp of the run. *)
Definition main (browser : option (list (str * str))) (underscore_value : str)
  (requests_get : str -> str -> exchange)
  (text_of decode : list Byte.byte -> str)
  (json_loads : str -> result value) (w : world) : run_end * world :=
  let output_dir := lit "PDFs" in
  match create_directory (files w) output_dir with
  | inl e => (DirectoryError e, w)
  | inr d =>
      let w0 := World d (requests w) in
      match start_browser_and_get_auth_cookies browser with
      | None => (SessionFailed, w0)
      | Some dynamic_cookie_string =>
          match fetch_json_data requests_get text_of dynamic_cookie_string
                  underscore_value w0 with
          | (_, None, w1) => (DataMissing, w1)
          | (_, Some [], w1) => (DataMissing, w1)
          | (_, Some raw_data, w1) =>
              match extract_pdf_document_ids json_loads raw_data with
              | Raise e => (ExtractionError e, w1)
              | Ok [] => (NoIdentifiers, w1)
              | Ok pdf_ids =>
                  (AllCompleted,
                   download_all requests_get decode dynamic_cookie_string
                     output_dir pdf_ids w1)
              end
          end
      end
  end.

End Main.

(** ** [pdf_validator.py] *)

Module Validator.
Import Py.

(** [fitz.open(file_path)] and the read of [page_count].  PyMuPDF checks
    the path itself and raises its own errors, which derive from
    [RuntimeError], for a missing path and for a path that is no file;
    [engine] is what it does with the bytes of a file: the page count of
    the document, or the exception it raises. *)
Definition fitz_page_count (engine : list Byte.byte -> result nat)
  (d : Fs.disk) (file_path : str) : result nat :=
  match Fs.nodes d !! file_path with
  | None => Raise RuntimeError
  | Some Fs.Directory => Raise RuntimeError
  | Some (Fs.File content) => engine content
  end.

Definition validate_pdf_file (engine : list Byte.byte -> result nat)
  (d : Fs.disk) (file_path : str) : result bool :=
  match
    bind (fitz_page_count engine d file_path) (fun page_count =>
      if Nat.eqb page_count 0 then Ok false else Ok true)
  with
  | Ok valid => Ok valid
  | Raise RuntimeError => Ok false
  | Raise FileNotFoundError => Ok false
  | Raise _ => Ok false
  end.

Definition remove_system_file (d : Fs.disk) (system_path : str)
  : result (bool * Fs.disk) :=
  match
    if Fs.path_exists d system_path then
      bind (Fs.remove d system_path) (fun removed => Ok (true, removed))
    else Ok (false, d)
  with
  | Ok r => Ok r
  | Raise PermissionError => Ok (false, d)
  | Raise _ => Ok (false, d)
  end.

(** The loop over the names of one directory in
    [walk_directory_and_extract_given_file_extension].  The list
    [matched_files] is the one the function returns, also after an
    exception, which is the second component. *)
Fixpoint scan_filenames (cwd : option str) (current_root file_extension : str)
  (names : list str) (matched_files : list str) : list str * option exn :=
  match names with
  | [] => (matched_files, None)
  | file_name :: rest =>
      if endswith file_name file_extension then
        match Fs.abspath cwd (Fs.path_join current_root file_name) with
        | Ok full_path =>
            scan_filenames cwd current_root file_extension rest
              (matched_files ++ [full_path])
        | Raise e => (matched_files, Some e)
        end
      else scan_filenames cwd current_root file_extension rest matched_files
  end.

(** The loop over the triples of [os.walk]. *)
Fixpoint scan_walk (cwd : option str) (file_extension : str)
  (steps : list (str * list str * list str)) (matched_files : list str)
  : list str * option exn :=
  match steps with
  | [] => (matched_files, None)
  | (current_root, _, names) :: rest =>
      match scan_filenames cwd current_root file_extension names matched_files with
      | (matched, None) => scan_walk cwd file_extension rest matched
      | (matched, Some e) => (matched, Some e)
      end
  end.

(** [root] is what the system has at [root_directory_path], [None] when
    there is nothing. *)
Definition walk_directory_and_extract_given_file_extension
  (cwd : option str) (root : option Fs.tree)
  (root_directory_path file_extension : str) : result (list str) :=
  let file_extension :=
    if negb (startswith file_extension [Fs.dot])
    then Fs.dot :: file_extension
    else file_extension in
  let steps :=
    match root with
    | Some t => Fs.walk root_directory_path t
    | None => []
    end in
  match scan_walk cwd file_extension steps [] with
  | (matched_files, None) => Ok matched_files
  | (matched_files, Some FileNotFoundError) => Ok matched_files
  | (matched_files, Some _) => Ok matched_files
  end.

Definition process_pdf_file (engine : list Byte.byte -> result nat)
  (d : Fs.disk) (file_path : str) : result Fs.disk :=
  bind (validate_pdf_file engine d file_path) (fun valid =>
    if negb valid then
      bind (remove_system_file d file_path) (fun r => Ok (snd r))
    else Ok d).

(** [os.cpu_count() or 4] *)
Definition MAX_WORKERS (cpu_count : option nat) : nat :=
  match cpu_count with
  | Some n => if Nat.eqb n 0 then 4 else n
  | None => 4
  end.

(** [executor.map(process_pdf_file, pdf_file_paths)], one task after the
    other.  A task reads and removes only the file at its own path, and an
    exception of a task stays in its future, which nobody reads. *)
Definition sweep (engine : list Byte.byte -> result nat)
  (pdf_file_paths : list str) (d : Fs.disk) : Fs.disk :=
  fold_left
    (fun d file_path =>
       match process_pdf_file engine d file_path with
       | Ok d' => d'
       | Raise _ => d
       end)
    pdf_file_paths d.

(** [main]: the number of workers of the pool and the store at the end. *)
Definition main (engine : list Byte.byte -> result nat)
  (cpu_count : option nat) (cwd : option str) (root : option Fs.tree)
  (d : Fs.disk) : result (nat * Fs.disk) :=
  let search_directory := lit "./PDFs" in
  let target_extension := lit ".pdf" in
  let workers := MAX_WORKERS cpu_count in
  bind (walk_directory_and_extract_given_file_extension cwd root
          search_directory target_extension) (fun pdf_file_paths =>
    match pdf_file_paths with
    | [] => Ok (workers, d)
    | _ :: _ => Ok (workers, sweep engine pdf_file_paths d)
    end).

(** [get_filename_and_extension] *)
Definition get_filename_and_extension (full_path : str) : str :=
  Fs.basename full_path.

(** [check_upper_case_letter] *)
Definition check_upper_case_letter (content_string : str) : bool :=
  existsb isupper content_string.

End Validator.

(** ** The specification's words, as definitions *)

Module Spec.
Import Py.

(** The first field of each row that has one, in row order. *)
Definition first_fields (rows : list (list str)) : list str :=
  concat (map (fun row => match row with
                          | [] => []
                          | field :: _ => [field]
                          end) rows).

(** The identifiers of a catalog: the first fields that end with [_PDF]. *)
Definition pdf_identifiers (rows : list (list str)) : list str :=
  List.filter (fun field => endswith field (lit "_PDF")) (first_fields rows).

(** A row of strings as the decoder delivers it. *)
Definition row_value (row : list str) : value := PyList (map PyStr row).

(** The catalog of scenario A, as text and as the decoded object. *)
Definition scenario_A : str :=
  lit "{" ++ Json.quoted "data" ++ lit ":{" ++ Json.quoted "Data" ++ lit ":[["
  ++ Json.quoted "ABC_PDF" ++ lit "],[" ++ Json.quoted "XYZ_DOC" ++ lit "],["
  ++ Json.quoted "DEF_PDF" ++ lit "]]}}".

Definition scenario_A_rows : list (list str) :=
  [[lit "ABC_PDF"]; [lit "XYZ_DOC"]; [lit "DEF_PDF"]].

Definition scenario_A_value : value :=
  PyDict [(lit "data", PyDict [(lit "Data", PyList (map row_value scenario_A_rows))])].




(** Occurrences of [x] in [l]. *)
Definition occurrences (x : str) (l : list str) : nat :=
  count_occ (List.list_eq_dec ascii_dec) l x.


(** The place of the first occurrence of [needle] in [s]. *)
Definition occurs_at (needle s : str) (i : nat) : bool :=
  str_eqb (firstn (length needle) (skipn i s)) needle.

Definition first_occurrence (needle s : str) : option nat :=
  List.find (occurs_at needle s) (seq 0 (S (length s))).

(** The value of [content=]: what follows its first occurrence, up to the
    next character for which [stop] holds. *)
Definition content_value (stop : ascii -> bool) (url : str) : option str :=
  match first_occurrence (lit "content=") url with
  | Some i =>
      Some (take_while (fun c => negb (stop c))
              (skipn (i + length (lit "content=")) url))
  | None => None
  end.

Definition is_ampersand (c : ascii) : bool := is_code 38 c.
Definition is_line_feed (c : ascii) : bool := is_code 10 c.

(** The set [A-Za-z0-9._-]. *)
Definition in_safe_set (c : ascii) : bool :=
  ascii_upper c || ascii_lower c || ascii_digit c
  || is_code 46 c || is_code 95 c || is_code 45 c.

(** Every character outside the set replaced with one underscore each. *)
Definition replace_each (s : str) : str :=
  map (fun c => if in_safe_set c then c else Main.underscore) s.

(** The characters that the program keeps: word characters (letters,
    digits and the underscore, also those beyond ASCII), period, hyphen. *)
Definition kept (c : ascii) : bool := is_word c || is_code 46 c || is_code 45 c.

(** Every maximal run of characters that are not kept replaced with one
    underscore: a character that is not kept gives an underscore when it
    opens a run, that is when the character before it, [prev], is kept or
    missing, and nothing otherwise. *)
Fixpoint replace_runs (prev : option ascii) (s : str) : str :=
  match s with
  | [] => []
  | c :: rest =>
      (if kept c then [c]
       else match prev with
            | Some p => if kept p then [Main.underscore] else []
            | None => [Main.underscore]
            end) ++ replace_runs (Some c) rest
  end.

(** The name ends in [.pdf], letters compared without regard to case. *)
Definition has_pdf_suffix (name : str) : bool :=
  (4 <=? length name)%nat
  && str_eqb (lower (skipn (length name - 4) name)) (lit ".pdf").

Definition force_pdf (name : str) : str :=
  if has_pdf_suffix name then name else name ++ lit ".pdf".

(** The file name as the specification words it. *)
Definition claimed_filename (url : str) : str :=
  force_pdf
    match content_value is_ampersand url with
    | Some v => replace_each (strip v)
    | None => lit "downloaded_file"
    end.

(** The file name as the program computes it. *)
Definition amended_filename (url : str) : str :=
  force_pdf
    match content_value (fun c => is_ampersand c || is_line_feed c) url with
    | Some v => replace_runs None (strip v)
    | None => lit "downloaded_file"
    end.

(** The path at which [download_pdf] stores the document [pdf_id]. *)
Definition destination (destination_directory pdf_id : str) : str :=
  Fs.path_join destination_directory
    (Main.url_to_filename (Main.pdf_base_url ++ pdf_id)).

(** A store with the directory [PDFs] and nothing in it, no request sent. *)
Definition empty_store : Main.world :=
  Main.World (Fs.Disk {[ lit "PDFs" := Fs.Directory ]} ∅) [].

(** A store that already holds the document [ABC_PDF]. *)
Definition store_with_ABC : Main.world :=
  Main.World
    (Fs.Disk {[ lit "PDFs" := Fs.Directory;
                lit "PDFs/ABC_PDF.pdf" := Fs.File [Byte.x25; Byte.x50] ]} ∅)
    [].

(** Servers: one that sends a PDF of two bytes, one whose connection
    breaks after the first chunk of a PDF, one that answers 304 with a
    body, one that sends a PDF without any byte, one that sends a login
    page, one that answers 404. *)
Definition serves_pdf (url cookie : str) : Main.exchange :=
  Main.Got (Main.Response 200 (Some (lit "application/pdf"))
              [[Byte.x25; Byte.x50]] None).

Definition breaks_in_stream (url cookie : str) : Main.exchange :=
  Main.Got (Main.Response 200 (Some (lit "application/pdf"))
              [[Byte.x25]] (Some Main.ConnectionError)).

Definition answers_304 (url cookie : str) : Main.exchange :=
  Main.Got (Main.Response 304 (Some (lit "application/pdf"))
              [[Byte.x25]] None).


Definition serves_login (url cookie : str) : Main.exchange :=
  Main.Got (Main.Response 200 (Some (lit "text/html")) [[Byte.x4c]] None).

Definition answers_404 (url cookie : str) : Main.exchange :=
  Main.Got (Main.Response 404 None [] None).

(** A decoding that reads every body as the page [Login]. *)
Definition reads_login (body : list Byte.byte) : str := lit "Login".

(** Two addresses for the naming: one whose identifier has two exclamation
    marks in a row, one whose identifier has the letter e with an acute
    accent (U+00E9). *)
Definition url_with_two_marks : str := Main.pdf_base_url ++ lit "a!!b".

Definition url_with_accent : str :=
  Main.pdf_base_url ++ [ascii_of_N 99; ascii_of_N 97; ascii_of_N 102; ascii_of_N 233].

(** A download that is refused before any of its body is stored: no
    response, a status that [raise_for_status] rejects, or a content type
    without [application/pdf]. *)
Definition refused (x : Main.exchange) : bool :=
  match x with
  | Main.NoResponse _ => true
  | Main.Got r =>
      match Main.raise_for_status r with
      | Some _ => true
      | None => negb (contains (default [] (Main.content_type r))
                        (lit "application/pdf"))
      end
  end.

(** The body marks a login or access-denied page. *)
Definition marks_login (html : str) : bool :=
  contains html (lit "Login") || contains (lower html) (lit "access denied").

(** The validator's verdict on the file at [path]. *)
Definition valid (engine : list Byte.byte -> result nat) (d : Fs.disk)
  (path : str) : bool :=
  match Validator.validate_pdf_file engine d path with
  | Ok b => b
  | Raise _ => false
  end.

(** The system lets the file at [path] be removed. *)
Definition removable (d : Fs.disk) (path : str) : bool :=
  Fs.isfile d path && negb (bool_decide (path ∈ Fs.locked d)).

(** The sweep over [paths] removes what is at [path]. *)
Definition swept (engine : list Byte.byte -> result nat) (paths : list str)
  (d : Fs.disk) (path : str) : bool :=
  bool_decide (path ∈ paths) && negb (valid engine d path) && removable d path.

(** A PDF engine for the examples: a file that starts with a percent sign
    is a document with one page for each of its bytes, any other file
    cannot be opened. *)
Definition percent_engine (content : list Byte.byte) : result nat :=
  match content with
  | Byte.x25 :: _ => Ok (length content)
  | _ => Raise RuntimeError
  end.

(** Scenario C: a directory with three valid and two corrupt files, as the
    tree that the walk reads and as the store that the sweep works on. *)
Definition scenario_C_tree : Fs.tree :=
  Fs.DirEntry true
    [(lit "a.pdf", Fs.FileEntry); (lit "b.pdf", Fs.FileEntry);
     (lit "c.pdf", Fs.FileEntry); (lit "d.pdf", Fs.FileEntry);
     (lit "e.pdf", Fs.FileEntry)].


Definition scenario_C_valid : gmap str Fs.node :=
  {[ lit "/srv/PDFs/a.pdf" := Fs.File [Byte.x25; Byte.x50];
     lit "/srv/PDFs/b.pdf" := Fs.File [Byte.x25];
     lit "/srv/PDFs/c.pdf" := Fs.File [Byte.x25; Byte.x50; Byte.x44] ]}.

Definition scenario_C_disk : Fs.disk :=
  Fs.Disk
    (<[ lit "/srv/PDFs/d.pdf" := Fs.File [] ]>
       (<[ lit "/srv/PDFs/e.pdf" := Fs.File [Byte.x3c; Byte.x68] ]>
          scenario_C_valid))
    ∅.


(** A name that a directory can hold: not empty, without a slash, neither
    [.] nor [..]. *)
Definition entry_name (name : str) : bool :=
  negb (str_eqb name []) && negb (existsb (ascii_eqb Fs.slash) name)
  && negb (str_eqb name [Fs.dot]) && negb (str_eqb name [Fs.dot; Fs.dot]).

Fixpoint names_ok (t : Fs.tree) : bool :=
  match t with
  | Fs.FileEntry => true
  | Fs.DirEntry _ entries =>
      forallb (fun e => entry_name (fst e) && names_ok (snd e)) entries
  end.

(** [x] is the name [f] or ends with a slash and the name [f]. *)
Definition ends_in_component (x f : str) : Prop :=
  x = f \/ exists y, x = y ++ Fs.slash :: f.

(** A tree for the walk: two documents, one of them with the extension in
    capitals, a note, and a subdirectory with one more document. *)
Definition sample_tree : Fs.tree :=
  Fs.DirEntry true
    [(lit "a.pdf", Fs.FileEntry); (lit "B.PDF", Fs.FileEntry);
     (lit "notes.txt", Fs.FileEntry);
     (lit "old", Fs.DirEntry true [(lit "c.pdf", Fs.FileEntry)]);
     (lit "private", Fs.DirEntry false [(lit "d.pdf", Fs.FileEntry)])].

(** The extension with its leading period. *)
Definition dotted (file_extension : str) : str :=
  match file_extension with
  | c :: _ => if ascii_eqb c Fs.dot then file_extension else Fs.dot :: file_extension
  | [] => [Fs.dot]
  end.

(** The store [d'] differs from [d] at most at [dest], where it may hold
    something new if [d] held nothing. *)
Definition untouched_but (dest : str) (d d' : Fs.disk) : Prop :=
  (forall q, q <> dest -> Fs.nodes d' !! q = Fs.nodes d !! q)
  /\ Fs.locked d' = Fs.locked d
  /\ (forall x, Fs.nodes d !! dest = Some x -> Fs.nodes d' !! dest = Some x).

(** Whatever [d] holds, [d'] holds as well, unchanged. *)
Definition keeps_entries (d d' : Fs.disk) : Prop :=
  (forall p x, Fs.nodes d !! p = Some x -> Fs.nodes d' !! p = Some x)
  /\ Fs.locked d' = Fs.locked d.

(** The address from which [download_pdf] fetches [pdf_id]. *)
Definition download_url (pdf_id : str) : str := Main.pdf_base_url ++ pdf_id.

(** A catalog whose [Data] is a string that itself ends with [_PDF]. *)
Definition rows_are_a_string : str :=
  lit "{" ++ Json.quoted "data" ++ lit ":{" ++ Json.quoted "Data" ++ lit ":"
  ++ Json.quoted "ABC_PDF" ++ lit "}}".

(** A catalog with rows that are [null], [false], [0] and an empty list
    among its rows of strings. *)
Definition rows_with_gaps : str :=
  lit "{" ++ Json.quoted "data" ++ lit ":{" ++ Json.quoted "Data"
  ++ lit ":[null,[" ++ Json.quoted "A_PDF" ++ lit "],false,0,[],["
  ++ Json.quoted "B_PDF" ++ lit "]]}}".

(** [os.path.abspath] of [path] when the working directory is [dir]. *)
Definition absolute (dir path : str) : str :=
  Fs.normpath (if startswith path [Fs.slash] then path else Fs.path_join dir path).

(** The paths of the names that end with [ext], listing after listing. *)
Definition matching_paths (dir ext : str)
  (steps : list (str * list str * list str)) : list str :=
  flat_map
    (fun step =>
       map (fun name => absolute dir (Fs.path_join (fst (fst step)) name))
         (List.filter (fun name => endswith name ext) (snd step)))
    steps.

(** The listings that the walk of [root] goes through. *)
Definition listings (root : option Fs.tree) (root_directory_path : str)
  : list (str * list str * list str) :=
  match root with
  | Some t => Fs.walk root_directory_path t
  | None => []
  end.

(** The length of the cookie header: each cookie with its equals sign, and
    two characters between neighbours. *)
Definition cookie_header_length (all_cookies : list (str * str)) : nat :=
  list_sum (map (fun c => length (fst c) + 1 + length (snd c)) all_cookies)
  + 2 * (length all_cookies - 1).

(** A server for a whole run: the catalog of scenario A for the address of
    the catalog, a PDF of two bytes for every other address. *)
Definition serves_scenario_A (url cookie : str) : Main.exchange :=
  if startswith url Main.api_base_url
  then Main.Got (Main.Response 200 (Some (lit "application/json"))
                   [map byte_of_ascii scenario_A] None)
  else serves_pdf url cookie.

(** The text of a body, byte for byte. *)
Definition latin1 (body : list Byte.byte) : str :=
  map ascii_of_byte body.

(** The session of the examples: two cookies. *)
Definition two_cookies : option (list (str * str)) :=
  Some [(lit "sid", lit "42"); (lit "lang", lit "en")].









End Spec.

(** * Properties *)

Import Py.

(** ** Characters and strings *)

Lemma ascii_eqb_true (a b : ascii) : ascii_eqb a b = true <-> a = b.
Proof. unfold ascii_eqb. apply Ascii.eqb_eq. Qed.

Lemma ascii_eqb_refl (a : ascii) : ascii_eqb a a = true.
Proof. apply ascii_eqb_true. reflexivity. Qed.

Lemma str_eqb_true (s t : str) : str_eqb s t = true <-> s = t.
Proof.
  revert t. induction s as [|a s IH]; intros [|b t]; simpl; split;
    try congruence; try reflexivity.
  - intros H. apply andb_true_iff in H as [Hab Hst].
    apply ascii_eqb_true in Hab. apply IH in Hst. congruence.
  - intros H. injection H as -> ->.
    rewrite ascii_eqb_refl. simpl. apply IH. reflexivity.
Qed.

Lemma str_eqb_refl (s : str) : str_eqb s s = true.
Proof. apply str_eqb_true. reflexivity. Qed.

Lemma str_eqb_false (s t : str) : str_eqb s t = false <-> s <> t.
Proof.
  split.
  - intros H E. apply str_eqb_true in E. congruence.
  - intros H. destruct (str_eqb s t) eqn:E; [|reflexivity].
    apply str_eqb_true in E. contradiction.
Qed.

(** ** The size of the worker pool *)

Lemma MAX_WORKERS_reported (n : nat) :
  0 < n -> Validator.MAX_WORKERS (Some n) = n.
Proof.
  intros Hn. unfold Validator.MAX_WORKERS.
  destruct n as [|n]; [lia | reflexivity].
Qed.

Lemma MAX_WORKERS_positive (cpu_count : option nat) :
  0 < Validator.MAX_WORKERS cpu_count.
Proof.
  destruct cpu_count as [[|n]|]; simpl; lia.
Qed.

Lemma main_returns engine cpu_count cwd root d :
  exists d', Validator.main engine cpu_count cwd root d
             = Ok (Validator.MAX_WORKERS cpu_count, d').
Proof.
  unfold Validator.main, Validator.walk_directory_and_extract_given_file_extension.
  destruct (Validator.scan_walk _ _ _ _) as [matched [e|]].
  - destruct e; simpl; destruct matched; eauto.
  - simpl. destruct matched; eauto.
Qed.

(** C9, as the specification states it, fails on a machine with two
    processors: the pool has two workers, which is neither the larger of 2
    and 4 nor at least 4. *)
Lemma pool_of_two_cores :
  (exists d', Validator.main (fun _ => Ok 1) (Some 2) (Some (lit "/srv")) None
                (Fs.Disk ∅ ∅) = Ok (2, d'))
  /\ Validator.MAX_WORKERS (Some 2) <> Nat.max 2 4
  /\ Validator.MAX_WORKERS (Some 2) < 4.
Proof.
  split; [|split].
  - eexists. reflexivity.
  - simpl. lia.
  - simpl. lia.
Qed.

(** C9 (amended): the sweep runs with as many workers as the system
    reports processors, whatever that positive number is, and with 4
    workers only when the system reports none; so the pool has
    max(parallelism, 4) workers exactly when parallelism is at least 4 or
    unknown, and it always has at least one worker. *)
Theorem pool_size_is_cpu_count_or_four :
  forall engine cpu_count cwd root d,
    (exists d', Validator.main engine cpu_count cwd root d
                = Ok (Validator.MAX_WORKERS cpu_count, d'))
    /\ (forall n, cpu_count = Some n -> 0 < n ->
          Validator.MAX_WORKERS cpu_count = n)
    /\ (cpu_count = None \/ cpu_count = Some 0 ->
          Validator.MAX_WORKERS cpu_count = 4)
    /\ (forall n, cpu_count = Some n -> 0 < n ->
          (Validator.MAX_WORKERS cpu_count = Nat.max n 4 <-> 4 <= n))
    /\ 0 < Validator.MAX_WORKERS cpu_count.
Proof.
  intros engine cpu_count cwd root d.
  split; [apply main_returns|].
  split; [intros n -> Hn; apply MAX_WORKERS_reported; exact Hn|].
  split; [intros [-> | ->]; reflexivity|].
  split; [|apply MAX_WORKERS_positive].
  intros n -> Hn. rewrite MAX_WORKERS_reported by exact Hn. lia.
Qed.

Lemma pool_size_is_cpu_count_or_four_witness :
  Validator.MAX_WORKERS (Some 2) = 2
  /\ Validator.MAX_WORKERS None = 4
  /\ (Validator.MAX_WORKERS (Some 8) = Nat.max 8 4 <-> 4 <= 8).
Proof.
  pose proof (pool_size_is_cpu_count_or_four (fun _ => Ok 1) (Some 2) None None
                (Fs.Disk ∅ ∅)) as (_ & H2 & _).
  pose proof (pool_size_is_cpu_count_or_four (fun _ => Ok 1) None None None
                (Fs.Disk ∅ ∅)) as (_ & _ & H0 & _).
  pose proof (pool_size_is_cpu_count_or_four (fun _ => Ok 1) (Some 8) None None
                (Fs.Disk ∅ ∅)) as (_ & _ & _ & H8 & _).
  split; [apply (H2 2); [reflexivity | lia]|].
  split; [apply H0; left; reflexivity|].
  apply (H8 8); [reflexivity | lia].
Defined.

(** ** The validation of one file *)

Lemma validate_pdf_file_total engine d file_path :
  exists b, Validator.validate_pdf_file engine d file_path = Ok b.
Proof.
  unfold Validator.validate_pdf_file.
  destruct (Validator.fitz_page_count engine d file_path) as [n|e]; simpl.
  - destruct (Nat.eqb n 0); eauto.
  - destruct e; eauto.
Qed.





(** ** The extraction of identifiers *)

Lemma extract_row_strings (row : list str) (acc : list str) :
  Main.extract_row (Spec.row_value row) acc
  = Ok (acc ++ Spec.pdf_identifiers [row]).
Proof.
  unfold Main.extract_row, Spec.pdf_identifiers, Spec.first_fields.
  destruct row as [|field fields]; simpl.
  - rewrite app_nil_r. reflexivity.
  - destruct (endswith field _); simpl.
    + reflexivity.
    + rewrite app_nil_r. reflexivity.
Qed.

Lemma pdf_identifiers_cons (row : list str) (rows : list (list str)) :
  Spec.pdf_identifiers (row :: rows)
  = Spec.pdf_identifiers [row] ++ Spec.pdf_identifiers rows.
Proof.
  unfold Spec.pdf_identifiers, Spec.first_fields. simpl.
  rewrite app_nil_r. apply List.filter_app.
Qed.

Lemma extract_rows_strings (rows : list (list str)) :
  forall acc,
    Main.extract_rows (map Spec.row_value rows) acc
    = Ok (acc ++ Spec.pdf_identifiers rows).
Proof.
  induction rows as [|row rows IH]; intros acc.
  - simpl. rewrite app_nil_r. reflexivity.
  - cbn [map Main.extract_rows]. rewrite extract_row_strings.
    cbn [bind]. rewrite IH, (pdf_identifiers_cons row rows), app_assoc.
    reflexivity.
Qed.

Lemma occurrences_filter (f : str -> bool) (x : str) (l : list str) :
  Spec.occurrences x (List.filter f l)
  = if f x then Spec.occurrences x l else 0.
Proof.
  unfold Spec.occurrences.
  induction l as [|y l IH]; simpl.
  - destruct (f x); reflexivity.
  - destruct (f y) eqn:Hy; simpl.
    + destruct (List.list_eq_dec ascii_dec y x) as [->|Hne].
      * rewrite Hy in *. rewrite IH. reflexivity.
      * exact IH.
    + destruct (List.list_eq_dec ascii_dec y x) as [->|Hne].
      * rewrite Hy in *. exact IH.
      * exact IH.
Qed.

Lemma extract_of_rows json_loads payload items data_items rows :
  json_loads payload = Ok (PyDict items) ->
  dict_get items (lit "data") (PyDict []) = PyDict data_items ->
  dict_get data_items (lit "Data") (PyList [])
  = PyList (map Spec.row_value rows) ->
  Main.extract_pdf_document_ids json_loads payload
  = Ok (Spec.pdf_identifiers rows).
Proof.
  intros Hloads Hdata Hrows. unfold Main.extract_pdf_document_ids.
  rewrite Hloads. cbn [get bind]. rewrite Hdata. cbn [get bind].
  rewrite Hrows. cbn [iterate bind]. apply extract_rows_strings.
Qed.

(** C1: when the payload decodes to an object whose [data.Data] is a list
    of rows of strings, [extract_pdf_document_ids] returns the first field
    of each row that has one and whose first field ends with [_PDF], in the
    order of the rows; an identifier comes out as many times as it comes in
    (nothing is deduplicated); and the catalog of scenario A gives
    [ABC_PDF], [DEF_PDF]. *)
Theorem extract_pdf_document_ids_of_rows :
  forall json_loads,
    (forall payload items data_items rows,
        json_loads payload = Ok (PyDict items) ->
        dict_get items (lit "data") (PyDict []) = PyDict data_items ->
        dict_get data_items (lit "Data") (PyList [])
        = PyList (map Spec.row_value rows) ->
        Main.extract_pdf_document_ids json_loads payload
        = Ok (Spec.pdf_identifiers rows)
        /\ (forall id, endswith id (lit "_PDF") = true ->
              Spec.occurrences id (Spec.pdf_identifiers rows)
              = Spec.occurrences id (Spec.first_fields rows)))
    /\ (json_loads Spec.scenario_A = Ok Spec.scenario_A_value ->
        Main.extract_pdf_document_ids json_loads Spec.scenario_A
        = Ok [lit "ABC_PDF"; lit "DEF_PDF"]).
Proof.
  intros json_loads. split.
  - intros payload items data_items rows Hloads Hdata Hrows. split.
    + eapply extract_of_rows; eassumption.
    + intros id Hid. unfold Spec.pdf_identifiers.
      rewrite occurrences_filter, Hid. reflexivity.
  - intros Hloads.
    rewrite (extract_of_rows json_loads Spec.scenario_A _ _ Spec.scenario_A_rows
               Hloads eq_refl eq_refl).
    reflexivity.
Qed.

Lemma extract_pdf_document_ids_of_rows_witness :
  Main.extract_pdf_document_ids Json.decode Spec.scenario_A
  = Ok [lit "ABC_PDF"; lit "DEF_PDF"].
Proof.
  apply (extract_pdf_document_ids_of_rows Json.decode).
  vm_compute. reflexivity.
Defined.

(** A catalog with a repeated identifier: both copies come out. *)
Example extract_keeps_repeats :
  Main.extract_pdf_document_ids
    (fun _ => Ok (PyDict [(lit "data", PyDict [(lit "Data",
        PyList (map Spec.row_value [[lit "A_PDF"; lit "x"]; []; [lit "A_PDF"]]))])]))
    []
  = Ok [lit "A_PDF"; lit "A_PDF"].
Proof. reflexivity. Qed.











(** ** The download of one document *)

Lemma isfile_lookup d path :
  Fs.isfile d path = true <-> exists content, Fs.nodes d !! path = Some (Fs.File content).
Proof.
  unfold Fs.isfile. destruct (Fs.nodes d !! path) as [[content|]|]; split;
    try discriminate; eauto; intros [c Hc]; discriminate.
Qed.

Lemma download_pdf_skip requests_get decode pdf_id cookie_value dir w :
  Main.file_exists (Main.files w) (Spec.destination dir pdf_id) = true ->
  Main.download_pdf requests_get decode pdf_id cookie_value dir w
  = (Main.Skipped, w).
Proof.
  intros Hexists. unfold Main.download_pdf.
  unfold Spec.destination in Hexists. rewrite Hexists. reflexivity.
Qed.

(** C3: when the destination file of an identifier exists,
    [download_pdf] returns at once: the world after the call is the world
    before it, so no request is sent and no file is changed; the file at
    the destination keeps its content; and a second call that finds the
    file left by a first one sends no request. *)
Theorem download_pdf_skips_existing_file :
  forall requests_get decode pdf_id cookie_value dir w,
    (Main.file_exists (Main.files w) (Spec.destination dir pdf_id) = true ->
     Main.download_pdf requests_get decode pdf_id cookie_value dir w
     = (Main.Skipped, w))
    /\ (forall content,
          Fs.nodes (Main.files w) !! Spec.destination dir pdf_id
          = Some (Fs.File content) ->
          Fs.nodes (Main.files
                      (snd (Main.download_pdf requests_get decode pdf_id
                              cookie_value dir w)))
            !! Spec.destination dir pdf_id
          = Some (Fs.File content))
    /\ (forall first second,
          first = Main.download_pdf requests_get decode pdf_id cookie_value dir w ->
          second = Main.download_pdf requests_get decode pdf_id cookie_value dir
                     (snd first) ->
          Main.file_exists (Main.files (snd first)) (Spec.destination dir pdf_id)
          = true ->
          fst second = Main.Skipped
          /\ Main.requests (snd second) = Main.requests (snd first)
          /\ Main.files (snd second) = Main.files (snd first)).
Proof.
  intros requests_get decode pdf_id cookie_value dir w.
  split; [apply download_pdf_skip|]. split.
  - intros content Hfile.
    rewrite download_pdf_skip; [exact Hfile|].
    apply isfile_lookup. eauto.
  - intros first second -> -> Hexists.
    rewrite (download_pdf_skip _ _ _ _ _ _ Hexists). auto.
Qed.

Lemma download_pdf_skips_existing_file_witness :
  Main.download_pdf Spec.serves_pdf Spec.reads_login (lit "ABC_PDF") (lit "c=1")
    (lit "PDFs") Spec.store_with_ABC
  = (Main.Skipped, Spec.store_with_ABC)
  /\ Main.requests
       (snd (Main.download_pdf Spec.serves_pdf Spec.reads_login (lit "ABC_PDF")
               (lit "c=1") (lit "PDFs")
               (snd (Main.download_pdf Spec.serves_pdf Spec.reads_login
                       (lit "ABC_PDF") (lit "c=1") (lit "PDFs") Spec.empty_store))))
     = Main.requests
         (snd (Main.download_pdf Spec.serves_pdf Spec.reads_login (lit "ABC_PDF")
                 (lit "c=1") (lit "PDFs") Spec.empty_store)).
Proof.
  split.
  - apply (download_pdf_skips_existing_file Spec.serves_pdf Spec.reads_login
             (lit "ABC_PDF") (lit "c=1") (lit "PDFs") Spec.store_with_ABC).
    vm_compute. reflexivity.
  - eapply (download_pdf_skips_existing_file Spec.serves_pdf Spec.reads_login
              (lit "ABC_PDF") (lit "c=1") (lit "PDFs") Spec.empty_store).
    + reflexivity.
    + reflexivity.
    + vm_compute. reflexivity.
Defined.


Lemma open_wb_creates d path opened :
  Fs.isfile d path = false ->
  Fs.open_wb d path = Ok opened ->
  Fs.nodes d !! path = None
  /\ opened = Fs.Disk (<[path := Fs.File []]> (Fs.nodes d)) (Fs.locked d)
  /\ path ∉ Fs.locked d.
Proof.
  unfold Fs.isfile, Fs.open_wb.
  destruct (Fs.nodes d !! path) as [[content|]|]; try discriminate.
  intros _. destruct (decide (path ∈ Fs.locked d)); [discriminate|].
  intros H. injection H as <-. auto.
Qed.




(** C7, as the specification states it, fails in two ways.  A connection
    that breaks after the first chunk of a PDF is a failed download, and
    the chunk stays in a file at the destination.  A response with status
    304, which is not a 2xx status, is stored like any other. *)
Lemma failed_download_leaves_a_file :
  (fst (Main.download_pdf Spec.breaks_in_stream Spec.reads_login (lit "ABC_PDF")
          (lit "c=1") (lit "PDFs") Spec.empty_store) = Main.DownloadFailed
   /\ Fs.nodes (Main.files
                  (snd (Main.download_pdf Spec.breaks_in_stream Spec.reads_login
                          (lit "ABC_PDF") (lit "c=1") (lit "PDFs") Spec.empty_store)))
        !! lit "PDFs/ABC_PDF.pdf" = Some (Fs.File [Byte.x25])
   /\ Spec.destination (lit "PDFs") (lit "ABC_PDF") = lit "PDFs/ABC_PDF.pdf")
  /\ (fst (Main.download_pdf Spec.answers_304 Spec.reads_login (lit "ABC_PDF")
             (lit "c=1") (lit "PDFs") Spec.empty_store) = Main.Downloaded 1
      /\ Main.file_exists
           (Main.files
              (snd (Main.download_pdf Spec.answers_304 Spec.reads_login
                      (lit "ABC_PDF") (lit "c=1") (lit "PDFs") Spec.empty_store)))
           (Spec.destination (lit "PDFs") (lit "ABC_PDF")) = true).
Proof. repeat split; vm_compute; reflexivity. Qed.

(** C7 (amended): a download that fails before its body is streamed to the
    file (no response because of a transport error or a time-out, a status
    from 400 to 599, a stream that breaks while a body that is no PDF is
    read, or a Content-Type without [application/pdf]) leaves the store of
    files as it was, so no file is at the destination after the call; one
    request was sent; and a body that is no PDF is reported as access
    denied when it marks a login or access-denied page and as an invalid
    content type otherwise. *)
Theorem download_pdf_refused_writes_no_file :
  forall requests_get decode pdf_id cookie_value dir w,
    Main.file_exists (Main.files w) (Spec.destination dir pdf_id) = false ->
    Spec.refused (requests_get (Main.pdf_base_url ++ pdf_id) cookie_value) = true ->
    Main.files (snd (Main.download_pdf requests_get decode pdf_id cookie_value dir w))
    = Main.files w
    /\ Main.file_exists
         (Main.files (snd (Main.download_pdf requests_get decode pdf_id
                             cookie_value dir w)))
         (Spec.destination dir pdf_id) = false
    /\ Main.requests
         (snd (Main.download_pdf requests_get decode pdf_id cookie_value dir w))
       = Main.requests w ++ [Main.pdf_base_url ++ pdf_id]
    /\ (forall r body,
          requests_get (Main.pdf_base_url ++ pdf_id) cookie_value = Main.Got r ->
          Main.raise_for_status r = None ->
          Main.content r = inr body ->
          fst (Main.download_pdf requests_get decode pdf_id cookie_value dir w)
          = if Spec.marks_login (decode body)
            then Main.AccessDenied else Main.InvalidContentType)
    /\ (forall r e,
          requests_get (Main.pdf_base_url ++ pdf_id) cookie_value = Main.Got r ->
          Main.raise_for_status r = Some e ->
          fst (Main.download_pdf requests_get decode pdf_id cookie_value dir w)
          = Main.DownloadFailed)
    /\ (forall e,
          requests_get (Main.pdf_base_url ++ pdf_id) cookie_value = Main.NoResponse e ->
          fst (Main.download_pdf requests_get decode pdf_id cookie_value dir w)
          = if match e with Main.ReadTimeout => true | _ => false end
            then Main.TimedOut else Main.DownloadFailed).
Proof.
  intros requests_get decode pdf_id cookie_value dir w Habsent Hrefused.
  unfold Main.download_pdf. fold (Spec.destination dir pdf_id).
  rewrite Habsent. unfold Spec.refused, Spec.marks_login in *.
  destruct (requests_get (Main.pdf_base_url ++ pdf_id) cookie_value) as [e|r].
  - cbn [snd fst Main.files Main.requests].
    split; [reflexivity|]. split; [exact Habsent|]. split; [reflexivity|].
    split; [discriminate|]. split; [discriminate|].
    intros e' H. injection H as <-. destruct e; reflexivity.
  - destruct (Main.raise_for_status r) as [e|] eqn:Hstatus.
    + cbn [snd fst Main.files Main.requests].
      split; [reflexivity|]. split; [exact Habsent|]. split; [reflexivity|].
      split; [|split; [|discriminate]].
      * intros r' body H Hnone. injection H as <-. congruence.
      * intros r' e' H Hsome. injection H as <-.
        unfold Main.raise_for_status in Hstatus.
        destruct (_ && _); [|discriminate].
        injection Hstatus as <-. reflexivity.
    + rewrite Hrefused.
      destruct (Main.content r) as [e|body] eqn:Hcontent.
      * cbn [snd fst Main.files Main.requests].
        split; [reflexivity|]. split; [exact Habsent|]. split; [reflexivity|].
        split; [|split; [|discriminate]].
        -- intros r' body H _ Hbody. injection H as <-. congruence.
        -- intros r' e' H Hsome. injection H as <-. congruence.
      * destruct (contains (decode body) (lit "Login")
                  || contains (lower (decode body)) (lit "access denied")) eqn:Hm;
          cbn [snd fst Main.files Main.requests];
          (split; [reflexivity|]; split; [exact Habsent|]; split; [reflexivity|];
           split; [|split; [|discriminate]];
           [ intros r' body' H1 _ H2; injection H1 as <-;
             rewrite Hcontent in H2; injection H2 as <-; rewrite Hm; reflexivity
           | intros r' e' H Hsome; injection H as <-; congruence ]).
Qed.

Lemma download_pdf_refused_writes_no_file_witness :
  Main.files (snd (Main.download_pdf Spec.serves_login Spec.reads_login
                     (lit "ABC_PDF") (lit "c=1") (lit "PDFs") Spec.empty_store))
  = Main.files Spec.empty_store
  /\ fst (Main.download_pdf Spec.serves_login Spec.reads_login
            (lit "ABC_PDF") (lit "c=1") (lit "PDFs") Spec.empty_store)
     = Main.AccessDenied
  /\ Main.files (snd (Main.download_pdf Spec.answers_404 Spec.reads_login
                        (lit "ABC_PDF") (lit "c=1") (lit "PDFs") Spec.empty_store))
     = Main.files Spec.empty_store.
Proof.
  pose proof (download_pdf_refused_writes_no_file Spec.serves_login
                Spec.reads_login (lit "ABC_PDF") (lit "c=1") (lit "PDFs")
                Spec.empty_store) as Hlogin.
  pose proof (download_pdf_refused_writes_no_file Spec.answers_404
                Spec.reads_login (lit "ABC_PDF") (lit "c=1") (lit "PDFs")
                Spec.empty_store) as H404.
  split; [|split].
  - apply Hlogin; vm_compute; reflexivity.
  - destruct Hlogin as (_ & _ & _ & Hreport & _);
      [vm_compute; reflexivity | vm_compute; reflexivity |].
    rewrite (Hreport _ [Byte.x4c] eq_refl eq_refl eq_refl). reflexivity.
  - apply H404; vm_compute; reflexivity.
Defined.

(** ** The sweep *)

Lemma valid_depends_on_node engine d d' path :
  Fs.nodes d !! path = Fs.nodes d' !! path ->
  Spec.valid engine d path = Spec.valid engine d' path.
Proof.
  intros H. unfold Spec.valid, Validator.validate_pdf_file,
    Validator.fitz_page_count. rewrite H. reflexivity.
Qed.

Lemma valid_true engine d path :
  Spec.valid engine d path = true <->
  Validator.validate_pdf_file engine d path = Ok true.
Proof.
  unfold Spec.valid.
  destruct (validate_pdf_file_total engine d path) as [b ->].
  split; [intros -> | intros H; injection H as ->]; reflexivity.
Qed.

Lemma remove_system_file_effect d path :
  Validator.remove_system_file d path
  = if Spec.removable d path
    then Ok (true, Fs.Disk (delete path (Fs.nodes d)) (Fs.locked d))
    else Ok (false, d).
Proof.
  unfold Validator.remove_system_file, Spec.removable, Fs.path_exists,
    Fs.remove, Fs.isfile.
  destruct (Fs.nodes d !! path) as [[content|]|]; simpl; try reflexivity.
  destruct (decide (path ∈ Fs.locked d)) as [Hin|Hout].
  - rewrite bool_decide_eq_true_2 by exact Hin. reflexivity.
  - rewrite bool_decide_eq_false_2 by exact Hout. reflexivity.
Qed.

Lemma process_pdf_file_effect engine d path :
  Validator.process_pdf_file engine d path
  = Ok (if negb (Spec.valid engine d path) && Spec.removable d path
        then Fs.Disk (delete path (Fs.nodes d)) (Fs.locked d)
        else d).
Proof.
  unfold Validator.process_pdf_file, Spec.valid.
  destruct (validate_pdf_file_total engine d path) as [b ->]. simpl.
  destruct b; simpl; [reflexivity|].
  rewrite remove_system_file_effect.
  destruct (Spec.removable d path); reflexivity.
Qed.

Lemma sweep_cons engine path paths d :
  Validator.sweep engine (path :: paths) d
  = Validator.sweep engine paths
      (if negb (Spec.valid engine d path) && Spec.removable d path
       then Fs.Disk (delete path (Fs.nodes d)) (Fs.locked d)
       else d).
Proof.
  unfold Validator.sweep. simpl. rewrite process_pdf_file_effect. reflexivity.
Qed.

Lemma sweep_locked engine paths :
  forall d, Fs.locked (Validator.sweep engine paths d) = Fs.locked d.
Proof.
  induction paths as [|path paths IH]; intros d; [reflexivity|].
  rewrite sweep_cons, IH. destruct (_ && _); reflexivity.
Qed.

Lemma removable_depends_on_node d d' path :
  Fs.nodes d !! path = Fs.nodes d' !! path ->
  Fs.locked d = Fs.locked d' ->
  Spec.removable d path = Spec.removable d' path.
Proof.
  intros Hn Hl. unfold Spec.removable, Fs.isfile. rewrite Hn, Hl. reflexivity.
Qed.

Lemma sweep_lookup engine paths :
  forall d path,
    Fs.nodes (Validator.sweep engine paths d) !! path
    = if Spec.swept engine paths d path then None else Fs.nodes d !! path.
Proof.
  induction paths as [|q paths IH]; intros d path.
  - reflexivity.
  - rewrite sweep_cons, IH. unfold Spec.swept.
    destruct (decide (q = path)) as [->|Hne].
    + rewrite (bool_decide_eq_true_2 (path ∈ path :: paths)) by apply list_elem_of_here.
      cbn [andb].
      destruct (negb (Spec.valid engine d path) && Spec.removable d path) eqn:Hgo.
      * unfold Spec.removable at 1, Fs.isfile. cbn [Fs.nodes].
        rewrite lookup_delete_eq. cbn [andb]. rewrite andb_false_r. reflexivity.
      * rewrite <- andb_assoc, Hgo, andb_false_r. reflexivity.
    + assert (Hsame : forall b : bool,
                 Fs.nodes (if b then Fs.Disk (delete q (Fs.nodes d)) (Fs.locked d) else d)
                   !! path = Fs.nodes d !! path).
      { intros [|]; [|reflexivity]. apply lookup_delete_ne. exact Hne. }
      assert (Hlock : forall b : bool,
                 Fs.locked (if b then Fs.Disk (delete q (Fs.nodes d)) (Fs.locked d) else d)
                 = Fs.locked d).
      { intros [|]; reflexivity. }
      rewrite (valid_depends_on_node engine _ d path (Hsame _)).
      rewrite (removable_depends_on_node _ d path (Hsame _) (Hlock _)).
      rewrite Hsame.
      replace (bool_decide (path ∈ q :: paths)) with (bool_decide (path ∈ paths)).
      * reflexivity.
      * apply bool_decide_ext. rewrite elem_of_cons. intuition congruence.
Qed.




(** Scenario C, run: of the three valid and two corrupt files that the
    walk finds, the three valid ones remain. *)
Example scenario_C_leaves_three_files :
  Validator.main Spec.percent_engine (Some 8) (Some (lit "/srv"))
    (Some Spec.scenario_C_tree) Spec.scenario_C_disk
  = Ok (8, Fs.Disk Spec.scenario_C_valid ∅)
  /\ size Spec.scenario_C_valid = 3.
Proof. split; vm_compute; reflexivity. Qed.

(** The order of two tasks of the pool does not matter. *)
Lemma sweep_order_of_two engine p q d :
  Fs.nodes (Validator.sweep engine [p; q] d)
  = Fs.nodes (Validator.sweep engine [q; p] d).
Proof.
  apply map_eq. intros path. rewrite !sweep_lookup. unfold Spec.swept.
  replace (bool_decide (path ∈ [q; p])) with (bool_decide (path ∈ [p; q])).
  - reflexivity.
  - apply bool_decide_ext. rewrite !elem_of_cons. tauto.
Qed.

(** ** The walk of the directory *)

Lemma ascii_eqb_sym (a b : ascii) : ascii_eqb a b = ascii_eqb b a.
Proof.
  destruct (ascii_eqb a b) eqn:E.
  - apply ascii_eqb_true in E. subst. symmetry. apply ascii_eqb_refl.
  - destruct (ascii_eqb b a) eqn:E'; [|reflexivity].
    apply ascii_eqb_true in E'. subst. rewrite ascii_eqb_refl in E. discriminate.
Qed.

Lemma split_nonempty sep s : split sep s <> [].
Proof.
  destruct s as [|c s]; simpl; [discriminate|].
  destruct (ascii_eqb c sep); [discriminate|].
  destruct (split sep s); discriminate.
Qed.

Lemma split_without_sep sep s :
  existsb (ascii_eqb sep) s = false -> split sep s = [s].
Proof.
  induction s as [|c s IH]; simpl; intros H; [reflexivity|].
  apply orb_false_iff in H as [Hc Hs].
  rewrite ascii_eqb_sym, Hc, (IH Hs). reflexivity.
Qed.

Lemma split_app_last sep x f :
  existsb (ascii_eqb sep) f = false ->
  split sep (x ++ sep :: f) = split sep x ++ [f].
Proof.
  intros Hf. induction x as [|c x IH]; simpl.
  - rewrite ascii_eqb_refl, (split_without_sep _ _ Hf). reflexivity.
  - rewrite IH. destruct (ascii_eqb c sep); [reflexivity|].
    destruct (split sep x) eqn:E; [|reflexivity].
    exfalso. exact (split_nonempty _ _ E).
Qed.

Lemma join_last sep l f : exists pre, join sep (l ++ [f]) = pre ++ f.
Proof.
  induction l as [|p l [pre IH]].
  - exists []. reflexivity.
  - cbn [app join]. destruct (l ++ [f]) as [|q rest] eqn:E.
    + destruct l; discriminate.
    + exists (p ++ sep :: pre). rewrite IH, <- app_assoc. reflexivity.
Qed.

Lemma startswith_app s t p :
  startswith s p = true -> startswith (s ++ t) p = true.
Proof.
  revert s. induction p as [|a p IH]; intros s.
  - intros _. destruct (s ++ t); reflexivity.
  - destruct s as [|b s]; simpl; [discriminate|].
    intros H. apply andb_true_iff in H as [Hab Hrest].
    rewrite Hab. simpl. apply IH. exact Hrest.
Qed.

Lemma endswith_app pre f ext :
  endswith f ext = true -> endswith (pre ++ f) ext = true.
Proof.
  unfold endswith. rewrite rev_app_distr. apply startswith_app.
Qed.

Lemma endswith_last a c :
  endswith a [c] = true -> exists a', a = a' ++ [c].
Proof.
  unfold endswith. cbn [rev app]. destruct (rev a) as [|b r] eqn:E; simpl.
  - discriminate.
  - intros H. apply andb_true_iff in H as [Hcb _].
    apply ascii_eqb_true in Hcb. subst b. exists (rev r).
    rewrite <- (rev_involutive a), E. reflexivity.
Qed.

Lemma entry_name_parts f :
  Spec.entry_name f = true ->
  str_eqb f [] = false /\ existsb (ascii_eqb Fs.slash) f = false
  /\ str_eqb f [Fs.dot] = false /\ str_eqb f [Fs.dot; Fs.dot] = false.
Proof.
  unfold Spec.entry_name. rewrite !andb_true_iff, !negb_true_iff. tauto.
Qed.

Lemma entry_name_no_leading_slash f :
  Spec.entry_name f = true -> startswith f [Fs.slash] = false.
Proof.
  intros H. apply entry_name_parts in H as (_ & Hslash & _).
  destruct f as [|c f]; [reflexivity|]. simpl in *.
  apply orb_false_iff in Hslash as [-> _]. reflexivity.
Qed.

Lemma normpath_step_name slashes comps f :
  Spec.entry_name f = true -> Fs.normpath_step slashes comps f = comps ++ [f].
Proof.
  intros H. apply entry_name_parts in H as (Hnil & _ & Hdot & Hdots).
  unfold Fs.normpath_step. rewrite Hnil, Hdot, Hdots. reflexivity.
Qed.

Lemma normpath_ends x f :
  Spec.entry_name f = true -> Spec.ends_in_component x f ->
  exists pre, Fs.normpath x = pre ++ f.
Proof.
  intros Hname Hends.
  pose proof (entry_name_parts f Hname) as (Hnil & Hslash & _).
  assert (Hsplit : exists comps, split Fs.slash x = comps ++ [f]).
  { destruct Hends as [->|[y ->]].
    - exists []. apply split_without_sep. exact Hslash.
    - exists (split Fs.slash y). apply split_app_last. exact Hslash. }
  destruct Hsplit as [comps Hsplit].
  assert (Hf : f <> []).
  { intros ->. rewrite str_eqb_refl in Hnil. discriminate. }
  unfold Fs.normpath. destruct x as [|c x].
  - destruct Hends as [E|[y E]]; [congruence | destruct y; discriminate].
  - rewrite Hsplit, fold_left_app. cbn [fold_left].
    rewrite (normpath_step_name _ _ _ Hname).
    destruct (join_last Fs.slash
                (fold_left (Fs.normpath_step (Fs.initial_slashes (c :: x))) comps [])
                f) as [pre ->].
    destruct (repeat Fs.slash (Fs.initial_slashes (c :: x)) ++ pre ++ f)
      as [|a l] eqn:E.
    + apply app_eq_nil in E as [_ E]. apply app_eq_nil in E as [_ E]. contradiction.
    + exists (repeat Fs.slash (Fs.initial_slashes (c :: x)) ++ pre).
      rewrite <- E, app_assoc. reflexivity.
Qed.

Lemma app_ends_in_component a f :
  Nat.eqb (length a) 0 || endswith a [Fs.slash] = true ->
  Spec.ends_in_component (a ++ f) f.
Proof.
  intros H. apply orb_true_iff in H as [H|H].
  - destruct a; [left; reflexivity | discriminate].
  - apply endswith_last in H as [a' ->]. right. exists a'.
    rewrite <- app_assoc. reflexivity.
Qed.

Lemma path_join_ends a x f :
  Spec.ends_in_component x f -> Spec.ends_in_component (Fs.path_join a x) f.
Proof.
  intros Hends. unfold Fs.path_join.
  destruct (startswith x [Fs.slash]); [exact Hends|].
  destruct (Nat.eqb (length a) 0 || endswith a [Fs.slash]) eqn:Hcond.
  - destruct Hends as [->|[y ->]].
    + apply app_ends_in_component. exact Hcond.
    + right. exists (a ++ y). rewrite <- app_assoc. reflexivity.
  - destruct Hends as [->|[y ->]].
    + right. exists a. reflexivity.
    + right. exists (a ++ Fs.slash :: y). rewrite <- app_assoc. reflexivity.
Qed.

Lemma abspath_ends cwd x f full_path :
  Spec.entry_name f = true -> Spec.ends_in_component x f ->
  Fs.abspath cwd x = Ok full_path ->
  exists pre, full_path = pre ++ f.
Proof.
  intros Hname Hends. unfold Fs.abspath.
  destruct (startswith x [Fs.slash]).
  - intros H. injection H as <-. apply normpath_ends; assumption.
  - destruct cwd as [dir|]; [|discriminate].
    intros H. injection H as <-. apply normpath_ends; [assumption|].
    apply path_join_ends. exact Hends.
Qed.

Lemma scan_filenames_ends cwd current_root ext names :
  Forall (fun name => Spec.entry_name name = true) names ->
  forall matched,
    Forall (fun p => endswith p ext = true) matched ->
    Forall (fun p => endswith p ext = true)
      (fst (Validator.scan_filenames cwd current_root ext names matched)).
Proof.
  induction 1 as [|name names Hname _ IH]; intros matched Hmatched; simpl.
  - exact Hmatched.
  - destruct (endswith name ext) eqn:Hext; [|apply IH; exact Hmatched].
    destruct (Fs.abspath cwd (Fs.path_join current_root name))
      as [full_path|e] eqn:Habs; [|exact Hmatched].
    apply IH. apply Forall_app. split; [exact Hmatched|].
    constructor; [|constructor].
    destruct (abspath_ends _ _ name _ Hname
                (path_join_ends current_root name name (or_introl eq_refl)) Habs)
      as [pre ->].
    apply endswith_app. exact Hext.
Qed.

Lemma scan_walk_ends cwd ext steps :
  Forall (fun step => Forall (fun name => Spec.entry_name name = true) (snd step))
    steps ->
  forall matched,
    Forall (fun p => endswith p ext = true) matched ->
    Forall (fun p => endswith p ext = true)
      (fst (Validator.scan_walk cwd ext steps matched)).
Proof.
  induction 1 as [|[[current_root dirs] names] steps Hstep _ IH];
    intros matched Hmatched; simpl.
  - exact Hmatched.
  - pose proof (scan_filenames_ends cwd current_root ext names Hstep matched
                  Hmatched) as Hscan.
    destruct (Validator.scan_filenames cwd current_root ext names matched)
      as [matched' [e|]]; simpl in *.
    + exact Hscan.
    + apply IH. exact Hscan.
Qed.

Lemma tree_nested_ind (P : Fs.tree -> Prop) :
  P Fs.FileEntry ->
  (forall readable entries,
      Forall (fun e => P (snd e)) entries -> P (Fs.DirEntry readable entries)) ->
  forall t, P t.
Proof.
  intros Hfile Hdir.
  refine (fix IH (t : Fs.tree) : P t :=
            match t with
            | Fs.FileEntry => Hfile
            | Fs.DirEntry readable entries =>
                Hdir readable entries
                  ((fix all (es : list (str * Fs.tree))
                      : Forall (fun e => P (snd e)) es :=
                      match es with
                      | [] => @List.Forall_nil _ _
                      | e :: es' => @List.Forall_cons _ _ e es' (IH (snd e)) (all es')
                      end) entries)
            end).
Qed.

Lemma filenames_are_entry_names entries :
  forallb (fun e => Spec.entry_name (fst e) && Spec.names_ok (snd e)) entries = true ->
  Forall (fun name => Spec.entry_name name = true) (Fs.filenames entries).
Proof.
  unfold Fs.filenames. induction entries as [|[name child] entries IH]; simpl.
  - constructor.
  - intros H. apply andb_true_iff in H as [H Hrest].
    apply andb_true_iff in H as [Hname _].
    destruct (negb (Fs.is_dir child)); simpl; auto.
Qed.

Lemma walk_entry_names t :
  forall top,
    Spec.names_ok t = true ->
    Forall (fun step => Forall (fun name => Spec.entry_name name = true) (snd step))
      (Fs.walk top t).
Proof.
  induction t as [|readable entries IH] using tree_nested_ind; intros top Hok.
  - constructor.
  - destruct readable; [|constructor]. cbn [Fs.walk]. constructor.
    + apply filenames_are_entry_names. exact Hok.
    + cbn [Spec.names_ok] in Hok. clear - IH Hok.
      induction IH as [|[name child] entries Hchild _ IHentries]; [constructor|].
      cbn [forallb fst snd] in Hok.
      apply andb_true_iff in Hok as [Hhere Hrest].
      apply andb_true_iff in Hhere as [_ Hchild_ok].
      apply Forall_app. split; [|apply IHentries; exact Hrest].
      destruct (Fs.is_dir child); [|constructor].
      apply Hchild. exact Hchild_ok.
Qed.

Lemma dotted_is_the_normalised_extension file_extension :
  (if negb (startswith file_extension [Fs.dot])
   then Fs.dot :: file_extension else file_extension)
  = Spec.dotted file_extension.
Proof.
  destruct file_extension as [|c rest]; [reflexivity|].
  unfold Spec.dotted. cbn [startswith].
  replace (startswith rest []) with true by (destruct rest; reflexivity).
  rewrite (ascii_eqb_sym c Fs.dot), andb_true_r.
  destruct (ascii_eqb Fs.dot c); reflexivity.
Qed.

(** C10: [walk_directory_and_extract_given_file_extension] returns a list
    for every root and extension and raises nothing; a root that does not
    exist or cannot be listed gives the empty list; and every path of the
    list ends with the extension, a period put before it when it has
    none, letter for letter. *)
Theorem walk_returns_only_paths_with_the_extension :
  forall cwd root root_directory_path file_extension,
    exists paths,
      Validator.walk_directory_and_extract_given_file_extension cwd root
        root_directory_path file_extension = Ok paths
      /\ (root = None -> paths = [])
      /\ (forall entries, root = Some (Fs.DirEntry false entries) -> paths = [])
      /\ (forall t, root = Some t -> Spec.names_ok t = true ->
            Forall (fun p => endswith p (Spec.dotted file_extension) = true) paths).
Proof.
  intros cwd root root_directory_path file_extension.
  unfold Validator.walk_directory_and_extract_given_file_extension.
  rewrite dotted_is_the_normalised_extension.
  set (steps := match root with
                | Some t => Fs.walk root_directory_path t
                | None => []
                end).
  assert (Hmatched :
            exists paths,
              match Validator.scan_walk cwd (Spec.dotted file_extension) steps [] with
              | (matched_files, None) => Ok matched_files
              | (matched_files, Some FileNotFoundError) => Ok matched_files
              | (matched_files, Some _) => Ok matched_files
              end = Ok paths
              /\ paths = fst (Validator.scan_walk cwd (Spec.dotted file_extension)
                                steps [])).
  { destruct (Validator.scan_walk _ _ _ _) as [matched [e|]].
    - exists matched. destruct e; auto.
    - exists matched. auto. }
  destruct Hmatched as (paths & Hrun & Hpaths).
  exists paths. split; [exact Hrun|]. subst paths steps.
  split; [intros ->; reflexivity|].
  split; [intros entries ->; reflexivity|].
  intros t -> Hok. apply scan_walk_ends; [|constructor].
  apply walk_entry_names. exact Hok.
Qed.

Lemma walk_returns_only_paths_with_the_extension_witness :
  exists paths,
    Validator.walk_directory_and_extract_given_file_extension
      (Some (lit "/srv")) (Some Spec.sample_tree) (lit "./PDFs") (lit "pdf")
    = Ok paths
    /\ Forall (fun p => endswith p (lit ".pdf") = true) paths.
Proof.
  destruct (walk_returns_only_paths_with_the_extension
              (Some (lit "/srv")) (Some Spec.sample_tree) (lit "./PDFs") (lit "pdf"))
    as (paths & Hrun & _ & _ & Hends).
  exists paths. split; [exact Hrun|].
  apply (Hends Spec.sample_tree); reflexivity.
Defined.

(** The walk of the sample tree: the name in capitals and the note are
    left out, the directory that cannot be listed is passed over. *)
Example walk_of_the_sample_tree :
  Validator.walk_directory_and_extract_given_file_extension
    (Some (lit "/srv")) (Some Spec.sample_tree) (lit "./PDFs") (lit "pdf")
  = Ok [lit "/srv/PDFs/a.pdf"; lit "/srv/PDFs/old/c.pdf"]
  /\ Validator.walk_directory_and_extract_given_file_extension
       None (Some Spec.sample_tree) (lit "./PDFs") (lit "pdf")
     = Ok [].
Proof. split; vm_compute; reflexivity. Qed.

(** ** The name of the file *)

Lemma ascii_eqb_code (c : ascii) (n : N) :
  (n < 256)%N -> ascii_eqb c (ascii_of_N n) = is_code n c.
Proof.
  intros Hn. unfold is_code, code.
  destruct (N.eqb_spec (N_of_ascii c) n) as [E|E].
  - apply ascii_eqb_true. rewrite <- E. symmetry. apply ascii_N_embedding.
  - destruct (ascii_eqb c (ascii_of_N n)) eqn:Heq; [|reflexivity].
    apply ascii_eqb_true in Heq. subst c.
    rewrite N_ascii_embedding in E by exact Hn. contradiction.
Qed.

Lemma after_prefix_occurs p s :
  after_prefix p s
  = if Spec.occurs_at p s 0 then Some (skipn (length p) s) else None.
Proof.
  unfold Spec.occurs_at. cbn [skipn].
  revert s. induction p as [|a p IH]; intros s.
  - destruct s; reflexivity.
  - destruct s as [|b s]; [reflexivity|].
    cbn [after_prefix length firstn skipn str_eqb].
    rewrite IH, (ascii_eqb_sym b a).
    destruct (ascii_eqb a b); reflexivity.
Qed.

Lemma find_map_S (f : nat -> bool) (l : list nat) :
  List.find f (map S l) = option_map S (List.find (fun i => f (S i)) l).
Proof.
  induction l as [|i l IH]; [reflexivity|]. simpl.
  destruct (f (S i)); [reflexivity | exact IH].
Qed.

Lemma first_occurrence_cons needle c s :
  Spec.first_occurrence needle (c :: s)
  = if Spec.occurs_at needle (c :: s) 0 then Some 0
    else option_map S (Spec.first_occurrence needle s).
Proof.
  unfold Spec.first_occurrence. cbn [length].
  change (seq 0 (S (S (length s)))) with (0 :: seq 1 (S (length s))).
  cbn [List.find]. destruct (Spec.occurs_at needle (c :: s) 0); [reflexivity|].
  rewrite <- seq_shift, find_map_S. reflexivity.
Qed.

Lemma re_search_content_first_occurrence url :
  Main.re_search_content url
  = match Spec.first_occurrence (lit "content=") url with
    | Some i =>
        Some (take_while (fun c => negb (ascii_eqb c Main.newline))
                (skipn (i + length (lit "content=")) url))
    | None => None
    end.
Proof.
  induction url as [|c url IH].
  - reflexivity.
  - cbn [Main.re_search_content].
    rewrite after_prefix_occurs, first_occurrence_cons.
    destruct (Spec.occurs_at (lit "content=") (c :: url) 0); [reflexivity|].
    rewrite IH. destruct (Spec.first_occurrence (lit "content=") url); reflexivity.
Qed.

Lemma hd_split sep s :
  hd [] (split sep s) = take_while (fun c => negb (ascii_eqb c sep)) s.
Proof.
  induction s as [|c s IH]; [reflexivity|]. cbn [split take_while].
  destruct (ascii_eqb c sep); [reflexivity|]. cbn [negb].
  rewrite <- IH. destruct (split sep s); reflexivity.
Qed.

Lemma take_while_twice f g s :
  take_while f (take_while g s) = take_while (fun c => g c && f c) s.
Proof.
  induction s as [|c s IH]; [reflexivity|]. cbn [take_while].
  destruct (g c); [|reflexivity]. cbn [take_while andb].
  destruct (f c); [rewrite IH|]; reflexivity.
Qed.

Lemma take_while_ext f g s :
  (forall c, f c = g c) -> take_while f s = take_while g s.
Proof.
  intros H. induction s as [|c s IH]; [reflexivity|].
  cbn [take_while]. rewrite H, IH. reflexivity.
Qed.

Lemma value_up_to_ampersand rest :
  hd [] (split (ascii_of_N 38)
           (take_while (fun c => negb (ascii_eqb c Main.newline)) rest))
  = take_while (fun c => negb (Spec.is_ampersand c || Spec.is_line_feed c)) rest.
Proof.
  rewrite hd_split, take_while_twice. apply take_while_ext. intros c.
  unfold Main.newline, Spec.is_ampersand, Spec.is_line_feed.
  rewrite !ascii_eqb_code by reflexivity.
  destruct (is_code 38 c), (is_code 10 c); reflexivity.
Qed.

Lemma re_sub_unsafe_runs s :
  forall in_match prev,
    in_match = match prev with
               | Some p => negb (Spec.kept p)
               | None => false
               end ->
    Main.re_sub_unsafe in_match s = Spec.replace_runs prev s.
Proof.
  induction s as [|c s IH]; intros in_match prev Hflag; [reflexivity|].
  cbn [Main.re_sub_unsafe Spec.replace_runs].
  unfold Main.unsafe_char. fold (Spec.kept c).
  destruct (Spec.kept c) eqn:Hc; cbn [negb].
  - rewrite (IH false (Some c)) by (rewrite Hc; reflexivity). reflexivity.
  - rewrite (IH true (Some c)) by (rewrite Hc; reflexivity).
    subst in_match. destruct prev as [p|]; [destruct (Spec.kept p)|]; reflexivity.
Qed.

Lemma startswith_true s p :
  startswith s p = true <-> exists t, s = p ++ t.
Proof.
  revert s. induction p as [|a p IH]; intros s.
  - split; [intros _; exists s; reflexivity | intros _; destruct s; reflexivity].
  - destruct s as [|b s]; cbn [startswith].
    + split; [discriminate | intros [t Ht]; discriminate].
    + rewrite andb_true_iff, ascii_eqb_true, IH. split.
      * intros [-> [t ->]]. exists t. reflexivity.
      * intros [t Ht]. injection Ht as -> ->. eauto.
Qed.

Lemma endswith_true s p :
  endswith s p = true <-> exists pre, s = pre ++ p.
Proof.
  unfold endswith. rewrite startswith_true. split.
  - intros [t Ht]. exists (rev t).
    rewrite <- (rev_involutive s), Ht, rev_app_distr, rev_involutive. reflexivity.
  - intros [pre ->]. exists (rev pre). apply rev_app_distr.
Qed.

Lemma suffix_test_true s p :
  (length p <=? length s)%nat && str_eqb (skipn (length s - length p) s) p = true
  <-> exists pre, s = pre ++ p.
Proof.
  rewrite andb_true_iff, Nat.leb_le, str_eqb_true. split.
  - intros [_ H]. exists (firstn (length s - length p) s).
    pose proof (firstn_skipn (length s - length p) s) as E.
    rewrite H in E. symmetry. exact E.
  - intros [pre ->]. rewrite length_app. split; [lia|].
    replace (length pre + length p - length p) with (length pre) by lia.
    rewrite skipn_app, skipn_all, Nat.sub_diag. reflexivity.
Qed.

Lemma endswith_suffix_test s p :
  endswith s p
  = (length p <=? length s)%nat && str_eqb (skipn (length s - length p) s) p.
Proof.
  apply eq_true_iff_eq. rewrite endswith_true, suffix_test_true. reflexivity.
Qed.

Lemma endswith_lower_pdf name :
  endswith (lower name) (lit ".pdf") = Spec.has_pdf_suffix name.
Proof.
  rewrite endswith_suffix_test. unfold Spec.has_pdf_suffix, lower.
  rewrite length_map, skipn_map. reflexivity.
Qed.

Lemma force_pdf_is_the_suffix_step name :
  (if negb (endswith (lower name) (lit ".pdf")) then name ++ lit ".pdf" else name)
  = Spec.force_pdf name.
Proof.
  rewrite endswith_lower_pdf. unfold Spec.force_pdf.
  destruct (Spec.has_pdf_suffix name); reflexivity.
Qed.

Lemma url_to_filename_amended url :
  Main.url_to_filename url = Spec.amended_filename url.
Proof.
  unfold Main.url_to_filename, Spec.amended_filename, Spec.content_value.
  cbv zeta. rewrite force_pdf_is_the_suffix_step, re_search_content_first_occurrence.
  destruct (Spec.first_occurrence (lit "content=") url) as [i|]; [|reflexivity].
  rewrite value_up_to_ampersand.
  rewrite (re_sub_unsafe_runs _ false None eq_refl). reflexivity.
Qed.

Lemma force_pdf_has_suffix name : Spec.has_pdf_suffix (Spec.force_pdf name) = true.
Proof.
  unfold Spec.force_pdf. destruct (Spec.has_pdf_suffix name) eqn:H; [exact H|].
  rewrite <- endswith_lower_pdf. unfold lower. rewrite map_app.
  apply endswith_app. reflexivity.
Qed.

Lemma replace_runs_kept s :
  forall prev, Forall (fun c => Spec.kept c = true) (Spec.replace_runs prev s).
Proof.
  induction s as [|c s IH]; intros prev; cbn [Spec.replace_runs].
  - constructor.
  - apply Forall_app. split; [|apply IH].
    destruct (Spec.kept c) eqn:Hc.
    + constructor; [exact Hc | constructor].
    + destruct prev as [p|]; [destruct (Spec.kept p)|];
        repeat constructor.
Qed.

Lemma amended_filename_kept url :
  Forall (fun c => Spec.kept c = true) (Spec.amended_filename url).
Proof.
  unfold Spec.amended_filename, Spec.force_pdf.
  assert (Hext : Forall (fun c => Spec.kept c = true) (lit ".pdf"))
    by (repeat constructor).
  assert (Hplace : Forall (fun c => Spec.kept c = true) (lit "downloaded_file"))
    by (repeat constructor).
  destruct (Spec.content_value _ url) as [v|];
    destruct (Spec.has_pdf_suffix _);
    repeat (apply Forall_app; split); auto using replace_runs_kept.
Qed.

(** C2, as the specification states it, fails.  Two characters outside the
    set that follow each other are replaced with one underscore, not with
    one each; and a letter beyond ASCII is a word character, which is
    kept. *)
Lemma url_to_filename_is_not_one_underscore_each :
  (Main.url_to_filename Spec.url_with_two_marks = lit "a_b.pdf"
   /\ Spec.claimed_filename Spec.url_with_two_marks = lit "a__b.pdf")
  /\ (Main.url_to_filename Spec.url_with_accent
      = [ascii_of_N 99; ascii_of_N 97; ascii_of_N 102; ascii_of_N 233] ++ lit ".pdf"
      /\ Spec.claimed_filename Spec.url_with_accent = lit "caf_.pdf").
Proof. repeat split; vm_compute; reflexivity. Qed.

(** C2 (amended): [url_to_filename] is a function of the address alone.
    The name is the text after the first [content=], up to the next
    ampersand or line feed, without the blanks at its two ends, in which
    every maximal run of characters that are neither word characters
    (letters, digits, underscore, also beyond ASCII), nor periods, nor
    hyphens is replaced with one underscore; it is the fixed placeholder
    when the address has no [content=]; and [.pdf] is appended exactly when
    the name does not end in [.pdf] already, letters compared without
    regard to case, the name itself unchanged.  The result holds only kept
    characters and always ends in [.pdf]. *)
Theorem url_to_filename_replaces_runs :
  forall url,
    Main.url_to_filename url = Spec.amended_filename url
    /\ Forall (fun c => Spec.kept c = true) (Main.url_to_filename url)
    /\ Spec.has_pdf_suffix (Main.url_to_filename url) = true.
Proof.
  intros url. rewrite url_to_filename_amended.
  split; [reflexivity|]. split; [apply amended_filename_kept|].
  unfold Spec.amended_filename. apply force_pdf_has_suffix.
Qed.

(** * Further properties of the two programs *)

(** ** What a download does to the store *)

Lemma write_chunks_lookup full_path body :
  forall d n content,
    Fs.nodes d !! full_path = Some (Fs.File content) ->
    Fs.nodes (fst (Main.write_chunks d full_path body n)) !! full_path
    = Some (Fs.File (content ++ concat body))
    /\ (forall q, q <> full_path ->
          Fs.nodes (fst (Main.write_chunks d full_path body n)) !! q
          = Fs.nodes d !! q)
    /\ Fs.locked (fst (Main.write_chunks d full_path body n)) = Fs.locked d
    /\ snd (Main.write_chunks d full_path body n) = n + length (concat body).
Proof.
  induction body as [|chunk body IH]; intros d n content Hfile.
  - cbn. rewrite app_nil_r. repeat split; auto.
  - destruct chunk as [|b chunk].
    + cbn [Main.write_chunks concat app]. apply IH. exact Hfile.
    + cbn [Main.write_chunks concat].
      assert (Hwrite : Fs.write d full_path (b :: chunk)
                       = Fs.Disk (<[full_path := Fs.File (content ++ b :: chunk)]>
                                    (Fs.nodes d)) (Fs.locked d)).
      { unfold Fs.write. rewrite Hfile. reflexivity. }
      rewrite Hwrite.
      destruct (IH (Fs.Disk (<[full_path := Fs.File (content ++ b :: chunk)]>
                               (Fs.nodes d)) (Fs.locked d))
                  (n + length (b :: chunk)) (content ++ b :: chunk))
        as (Hhere & Hothers & Hlocked & Hcount).
      { cbn [Fs.nodes]. apply lookup_insert_eq. }
      split; [|split; [|split]].
      * rewrite Hhere, <- app_assoc. reflexivity.
      * intros q Hq. rewrite (Hothers q Hq). cbn [Fs.nodes].
        apply lookup_insert_ne. congruence.
      * rewrite Hlocked. reflexivity.
      * rewrite Hcount, length_app. lia.
Qed.

Lemma untouched_but_refl dest d : Spec.untouched_but dest d d.
Proof. repeat split; auto. Qed.

Lemma download_pdf_outcomes requests_get decode pdf_id cookie_value dir w :
  (Main.files (snd (Main.download_pdf requests_get decode pdf_id cookie_value dir w))
   = Main.files w
   /\ forall n, fst (Main.download_pdf requests_get decode pdf_id cookie_value dir w)
                <> Main.Downloaded n)
  \/ exists r,
       requests_get (Spec.download_url pdf_id) cookie_value = Main.Got r
       /\ Fs.nodes (Main.files w) !! Spec.destination dir pdf_id = None
       /\ Fs.locked (Main.files (snd (Main.download_pdf requests_get decode pdf_id
                                         cookie_value dir w)))
          = Fs.locked (Main.files w)
       /\ (forall q, q <> Spec.destination dir pdf_id ->
             Fs.nodes (Main.files (snd (Main.download_pdf requests_get decode pdf_id
                                          cookie_value dir w))) !! q
             = Fs.nodes (Main.files w) !! q)
       /\ ((Fs.nodes (Main.files (snd (Main.download_pdf requests_get decode pdf_id
                                         cookie_value dir w)))
              !! Spec.destination dir pdf_id
            = Some (Fs.File (concat (Main.chunks r)))
            /\ (forall n,
                  fst (Main.download_pdf requests_get decode pdf_id cookie_value dir w)
                  = Main.Downloaded n ->
                  n = length (concat (Main.chunks r)) /\ 0 < n
                  /\ Main.stream_error r = None))
           \/ (Fs.nodes (Main.files (snd (Main.download_pdf requests_get decode pdf_id
                                            cookie_value dir w)))
                 !! Spec.destination dir pdf_id = None
               /\ fst (Main.download_pdf requests_get decode pdf_id cookie_value dir w)
                  = Main.EmptyDownload)).
Proof.
  unfold Main.download_pdf, Spec.download_url.
  fold (Spec.destination dir pdf_id).
  destruct (Main.file_exists (Main.files w) (Spec.destination dir pdf_id)) eqn:Hexists;
    [left; split; [reflexivity | discriminate]|].
  destruct (requests_get (Main.pdf_base_url ++ pdf_id) cookie_value) as [e|r];
    [left; split; [reflexivity | destruct e; discriminate]|].
  destruct (Main.raise_for_status r) as [e|];
    [left; split; [reflexivity | destruct e; discriminate]|].
  destruct (negb (contains (default [] (Main.content_type r)) (lit "application/pdf"))).
  { left. destruct (Main.content r) as [e|body].
    - split; [reflexivity | destruct e; discriminate].
    - destruct (_ || _); split; try reflexivity; discriminate. }
  destruct (Fs.open_wb (Main.files w) (Spec.destination dir pdf_id))
    as [opened|e] eqn:Hopen; [|left; split; [reflexivity | discriminate]].
  destruct (open_wb_creates _ _ _ Hexists Hopen) as (Hnone & -> & Hfree).
  right. exists r. split; [reflexivity|]. split; [exact Hnone|].
  destruct (write_chunks_lookup (Spec.destination dir pdf_id) (Main.chunks r)
              (Fs.Disk (<[Spec.destination dir pdf_id := Fs.File []]>
                          (Fs.nodes (Main.files w))) (Fs.locked (Main.files w)))
              0 [])
    as (Hhere & Hothers & Hlocked & Hcount).
  { cbn [Fs.nodes]. apply lookup_insert_eq. }
  destruct (Main.write_chunks _ _ (Main.chunks r) 0) as [written bytes_written].
  cbn [fst snd Fs.nodes Fs.locked app] in Hhere, Hothers, Hlocked, Hcount.
  assert (Hrest : forall q, q <> Spec.destination dir pdf_id ->
                    Fs.nodes written !! q = Fs.nodes (Main.files w) !! q).
  { intros q Hq. rewrite (Hothers q Hq). apply lookup_insert_ne. congruence. }
  destruct (Main.stream_error r) as [e|] eqn:Hstream.
  - cbn [fst snd Main.files]. split; [exact Hlocked|]. split; [exact Hrest|].
    left. split; [exact Hhere|]. intros n H. destruct e; discriminate.
  - destruct (Nat.eqb bytes_written 0) eqn:Hzero.
    + unfold Fs.remove. rewrite Hhere, Hlocked.
      destruct (decide (Spec.destination dir pdf_id ∈ Fs.locked (Main.files w)));
        [contradiction|].
      cbn [fst snd Main.files Fs.nodes Fs.locked].
      split; [reflexivity|]. split.
      * intros q Hq. rewrite lookup_delete_ne by congruence. apply Hrest. exact Hq.
      * right. split; [apply lookup_delete_eq | reflexivity].
    + cbn [fst snd Main.files]. split; [exact Hlocked|]. split; [exact Hrest|].
      left. split; [exact Hhere|]. intros n H. injection H as <-.
      apply Nat.eqb_neq in Hzero. repeat split; lia.
Qed.

Lemma download_pdf_requests requests_get decode pdf_id cookie_value dir w :
  Main.requests (snd (Main.download_pdf requests_get decode pdf_id cookie_value dir w))
  = if Main.file_exists (Main.files w) (Spec.destination dir pdf_id)
    then Main.requests w
    else Main.requests w ++ [Spec.download_url pdf_id].
Proof.
  unfold Main.download_pdf, Spec.download_url.
  fold (Spec.destination dir pdf_id).
  destruct (Main.file_exists (Main.files w) (Spec.destination dir pdf_id));
    [reflexivity|].
  destruct (requests_get _ cookie_value) as [e|r]; [reflexivity|].
  destruct (Main.raise_for_status r); [reflexivity|].
  destruct (negb _).
  - destruct (Main.content r); [reflexivity|]. destruct (_ || _); reflexivity.
  - destruct (Fs.open_wb _ _); [|reflexivity].
    destruct (Main.write_chunks _ _ _ _) as [written bytes_written].
    destruct (Main.stream_error r); [reflexivity|].
    destruct (Nat.eqb bytes_written 0); [|reflexivity].
    destruct (Fs.remove _ _); reflexivity.
Qed.

Lemma download_pdf_untouched_but requests_get decode pdf_id cookie_value dir w :
  Spec.untouched_but (Spec.destination dir pdf_id) (Main.files w)
    (Main.files (snd (Main.download_pdf requests_get decode pdf_id cookie_value dir w))).
Proof.
  destruct (download_pdf_outcomes requests_get decode pdf_id cookie_value dir w)
    as [[-> _]|(r & _ & Hnone & Hlocked & Hothers & _)].
  - apply untouched_but_refl.
  - split; [exact Hothers|]. split; [exact Hlocked|].
    intros x Hx. congruence.
Qed.

(** X1: a call of [download_pdf] changes the store at most at its
    destination, and only by putting a file where nothing was: every other
    path, the protection of the paths and whatever was at the destination
    are as before; and it sends one request, or none when the file
    exists. *)
Theorem download_pdf_touches_only_its_destination :
  forall requests_get decode pdf_id cookie_value dir w,
    Spec.untouched_but (Spec.destination dir pdf_id) (Main.files w)
      (Main.files (snd (Main.download_pdf requests_get decode pdf_id
                          cookie_value dir w)))
    /\ Main.requests (snd (Main.download_pdf requests_get decode pdf_id
                             cookie_value dir w))
       = if Main.file_exists (Main.files w) (Spec.destination dir pdf_id)
         then Main.requests w
         else Main.requests w ++ [Spec.download_url pdf_id].
Proof.
  intros. split; [apply download_pdf_untouched_but | apply download_pdf_requests].
Qed.

(** X2: when [download_pdf] reports a download of [n] bytes, the server
    answered with a body that ended without an error, nothing was at the
    destination before, and the file now at the destination holds exactly
    the chunks of the body, one after the other, [n] bytes in all and at
    least one. *)
Theorem download_pdf_reports_what_it_stored :
  forall requests_get decode pdf_id cookie_value dir w n,
    fst (Main.download_pdf requests_get decode pdf_id cookie_value dir w)
    = Main.Downloaded n ->
    exists r,
      requests_get (Spec.download_url pdf_id) cookie_value = Main.Got r
      /\ Main.stream_error r = None
      /\ Fs.nodes (Main.files w) !! Spec.destination dir pdf_id = None
      /\ Fs.nodes (Main.files (snd (Main.download_pdf requests_get decode pdf_id
                                      cookie_value dir w)))
           !! Spec.destination dir pdf_id
         = Some (Fs.File (concat (Main.chunks r)))
      /\ n = length (concat (Main.chunks r))
      /\ 0 < n.
Proof.
  intros requests_get decode pdf_id cookie_value dir w n Hreport.
  destruct (download_pdf_outcomes requests_get decode pdf_id cookie_value dir w)
    as [[_ Hnot]|(r & Hget & Hnone & _ & _ & [[Hfile Hdone]|[_ Hempty]])].
  - exfalso. exact (Hnot n Hreport).
  - destruct (Hdone n Hreport) as (Hn & Hpos & Hstream).
    exists r. repeat split; assumption.
  - rewrite Hempty in Hreport. discriminate.
Qed.

Lemma download_pdf_reports_what_it_stored_witness :
  exists r,
    Spec.serves_pdf (Spec.download_url (lit "ABC_PDF")) (lit "c=1") = Main.Got r
    /\ Fs.nodes (Main.files (snd (Main.download_pdf Spec.serves_pdf Spec.reads_login
                                    (lit "ABC_PDF") (lit "c=1") (lit "PDFs")
                                    Spec.empty_store)))
         !! Spec.destination (lit "PDFs") (lit "ABC_PDF")
       = Some (Fs.File (concat (Main.chunks r)))
    /\ 2 = length (concat (Main.chunks r)).
Proof.
  destruct (download_pdf_reports_what_it_stored Spec.serves_pdf Spec.reads_login
              (lit "ABC_PDF") (lit "c=1") (lit "PDFs") Spec.empty_store 2)
    as (r & Hget & _ & _ & Hfile & Hn & _).
  - vm_compute. reflexivity.
  - exists r. auto.
Defined.

Lemma keeps_entries_refl d : Spec.keeps_entries d d.
Proof. split; auto. Qed.

Lemma keeps_entries_trans d1 d2 d3 :
  Spec.keeps_entries d1 d2 -> Spec.keeps_entries d2 d3 -> Spec.keeps_entries d1 d3.
Proof.
  intros [H12 L12] [H23 L23]. split; [auto | congruence].
Qed.

Lemma untouched_but_keeps dest d d' :
  Spec.untouched_but dest d d' -> Spec.keeps_entries d d'.
Proof.
  intros (Hothers & Hlocked & Hdest). split; [|exact Hlocked].
  intros p x Hp. destruct (decide (p = dest)) as [->|Hne].
  - apply Hdest. exact Hp.
  - rewrite (Hothers p Hne). exact Hp.
Qed.

Lemma download_all_keeps requests_get decode cookie_value dir pdf_ids :
  forall w,
    Spec.keeps_entries (Main.files w)
      (Main.files (Main.download_all requests_get decode cookie_value dir pdf_ids w)).
Proof.
  induction pdf_ids as [|doc_id rest IH]; intros w; cbn [Main.download_all].
  - apply keeps_entries_refl.
  - eapply keeps_entries_trans; [|apply IH].
    eapply untouched_but_keeps. apply download_pdf_untouched_but.
Qed.

Lemma download_all_requests requests_get decode cookie_value dir pdf_ids :
  forall w,
    exists sent,
      Main.requests (Main.download_all requests_get decode cookie_value dir pdf_ids w)
      = Main.requests w ++ sent
      /\ sublist sent (map Spec.download_url pdf_ids).
Proof.
  induction pdf_ids as [|doc_id rest IH]; intros w; cbn [Main.download_all map].
  - exists []. rewrite app_nil_r. split; [reflexivity | constructor].
  - destruct (IH (snd (Main.download_pdf requests_get decode doc_id cookie_value
                         dir w))) as (sent & Hsent & Hsub).
    rewrite Hsent, download_pdf_requests.
    destruct (Main.file_exists _ _).
    + exists sent. split; [reflexivity | apply sublist_cons; exact Hsub].
    + exists (Spec.download_url doc_id :: sent). split.
      * rewrite <- app_assoc. reflexivity.
      * apply sublist_skip. exact Hsub.
Qed.

Lemma isfile_kept d d' path :
  Spec.keeps_entries d d' -> Fs.isfile d path = true -> Fs.isfile d' path = true.
Proof.
  intros [Hkeep _] Hfile. apply isfile_lookup in Hfile as [content Hc].
  apply isfile_lookup. exists content. apply Hkeep. exact Hc.
Qed.

(** X3: the loop of downloads never changes or removes what the store
    holds: every entry that is there before the loop is there after it,
    with the same content; so an identifier whose file exists is skipped
    wherever it occurs in the list, also when it occurs again after its own
    download; and the requests go out in the order of the list, at most one
    for each identifier. *)
Theorem download_all_keeps_files_and_order :
  forall requests_get decode cookie_value dir pdf_ids w,
    Spec.keeps_entries (Main.files w)
      (Main.files (Main.download_all requests_get decode cookie_value dir pdf_ids w))
    /\ (forall pdf_id,
          Main.file_exists (Main.files w) (Spec.destination dir pdf_id) = true ->
          Main.download_pdf requests_get decode pdf_id cookie_value dir
            (Main.download_all requests_get decode cookie_value dir pdf_ids w)
          = (Main.Skipped,
             Main.download_all requests_get decode cookie_value dir pdf_ids w))
    /\ (exists sent,
          Main.requests (Main.download_all requests_get decode cookie_value dir
                           pdf_ids w)
          = Main.requests w ++ sent
          /\ sublist sent (map Spec.download_url pdf_ids)).
Proof.
  intros requests_get decode cookie_value dir pdf_ids w.
  split; [apply download_all_keeps|]. split; [|apply download_all_requests].
  intros pdf_id Hexists. apply download_pdf_skip.
  eapply isfile_kept; [apply download_all_keeps | exact Hexists].
Qed.

(** One identifier listed twice: the second turn of the loop finds the
    file of the first and sends nothing. *)
Example repeated_identifier_is_requested_once :
  Main.requests
    (Main.download_all Spec.serves_pdf Spec.reads_login (lit "c=1") (lit "PDFs")
       [lit "ABC_PDF"; lit "ABC_PDF"] Spec.empty_store)
  = [Spec.download_url (lit "ABC_PDF")].
Proof. vm_compute. reflexivity. Qed.

(** ** Names and destinations *)

Lemma kept_is_plain (c : ascii) :
  Spec.kept c = true ->
  isspace c = false
  /\ ascii_eqb c Main.newline = false
  /\ ascii_eqb c (ascii_of_N 38) = false
  /\ ascii_eqb Fs.slash c = false.
Proof.
  destruct c as [[] [] [] [] [] [] [] []]; vm_compute; intros H;
    try discriminate H; repeat split.
Qed.

Lemma take_while_all (f : ascii -> bool) (s : str) :
  Forall (fun c => f c = true) s -> take_while f s = s.
Proof.
  induction 1 as [|c s Hc _ IH]; [reflexivity|].
  cbn [take_while]. rewrite Hc, IH. reflexivity.
Qed.

Lemma drop_while_none (f : ascii -> bool) (s : str) :
  Forall (fun c => f c = false) s -> drop_while f s = s.
Proof.
  intros H. destruct H as [|c s Hc _]; [reflexivity|].
  cbn [drop_while]. rewrite Hc. reflexivity.
Qed.

Lemma strip_without_blanks (s : str) :
  Forall (fun c => isspace c = false) s -> strip s = s.
Proof.
  intros H. unfold strip, lstrip, rstrip.
  rewrite (drop_while_none _ _ H).
  rewrite drop_while_none by (apply Forall_rev; exact H).
  apply rev_involutive.
Qed.

Lemma re_sub_unsafe_fixed (s : str) :
  Forall (fun c => Spec.kept c = true) s ->
  forall in_match, Main.re_sub_unsafe in_match s = s.
Proof.
  induction 1 as [|c s Hc _ IH]; intros in_match; [reflexivity|].
  cbn [Main.re_sub_unsafe]. unfold Main.unsafe_char. fold (Spec.kept c).
  rewrite Hc. cbn [negb]. rewrite IH. reflexivity.
Qed.

Lemma re_search_content_download_url (pdf_id : str) :
  Main.re_search_content (Spec.download_url pdf_id)
  = Some (take_while (fun c => negb (ascii_eqb c Main.newline)) pdf_id).
Proof. reflexivity. Qed.

Lemma url_to_filename_of_kept (pdf_id : str) :
  Forall (fun c => Spec.kept c = true) pdf_id ->
  Main.url_to_filename (Spec.download_url pdf_id) = Spec.force_pdf pdf_id.
Proof.
  intros Hkept. unfold Main.url_to_filename. cbv zeta.
  rewrite force_pdf_is_the_suffix_step, re_search_content_download_url.
  rewrite take_while_all, hd_split, take_while_all, strip_without_blanks,
    re_sub_unsafe_fixed; try reflexivity; try exact Hkept;
    eapply Forall_impl; try exact Hkept; intros c Hc;
    destruct (kept_is_plain c Hc) as (Hspace & Hnl & Hamp & _);
    cbv beta; try rewrite Hnl; try rewrite Hamp; auto.
Qed.

Lemma PDF_suffix_is_no_pdf_suffix (pdf_id : str) :
  endswith pdf_id (lit "_PDF") = true -> Spec.has_pdf_suffix pdf_id = false.
Proof.
  intros H. apply endswith_true in H as [pre ->].
  rewrite <- endswith_lower_pdf.
  destruct (endswith (lower (pre ++ lit "_PDF")) (lit ".pdf")) eqn:E;
    [|reflexivity].
  apply endswith_true in E as [pre' E]. unfold lower in E. rewrite map_app in E.
  apply app_inj_2 in E as [_ E]; [|reflexivity].
  vm_compute in E. discriminate.
Qed.

Lemma url_to_filename_of_PDF_identifier (pdf_id : str) :
  Forall (fun c => Spec.kept c = true) pdf_id ->
  endswith pdf_id (lit "_PDF") = true ->
  Main.url_to_filename (Spec.download_url pdf_id) = pdf_id ++ lit ".pdf".
Proof.
  intros Hkept Hsuffix. rewrite url_to_filename_of_kept by exact Hkept.
  unfold Spec.force_pdf. rewrite PDF_suffix_is_no_pdf_suffix by exact Hsuffix.
  reflexivity.
Qed.

(** X4: an identifier made of word characters, periods and hyphens goes
    into the file name as it is; when, like every identifier of the
    catalog that is downloaded, it ends with [_PDF], the name is the
    identifier followed by [.pdf]. *)
Theorem url_to_filename_keeps_plain_identifiers :
  forall pdf_id,
    Forall (fun c => Spec.kept c = true) pdf_id ->
    Main.url_to_filename (Spec.download_url pdf_id) = Spec.force_pdf pdf_id
    /\ (endswith pdf_id (lit "_PDF") = true ->
        Main.url_to_filename (Spec.download_url pdf_id) = pdf_id ++ lit ".pdf").
Proof.
  intros pdf_id Hkept. split; [apply url_to_filename_of_kept; exact Hkept|].
  apply url_to_filename_of_PDF_identifier. exact Hkept.
Qed.

Lemma url_to_filename_keeps_plain_identifiers_witness :
  Main.url_to_filename (Spec.download_url (lit "MS-0800_12.3_PDF"))
  = lit "MS-0800_12.3_PDF" ++ lit ".pdf".
Proof.
  apply (url_to_filename_keeps_plain_identifiers (lit "MS-0800_12.3_PDF")).
  - repeat constructor.
  - reflexivity.
Defined.

Lemma kept_no_slash (s : str) :
  Forall (fun c => Spec.kept c = true) s -> existsb (ascii_eqb Fs.slash) s = false.
Proof.
  induction 1 as [|c s Hc _ IH]; [reflexivity|].
  cbn [existsb]. destruct (kept_is_plain c Hc) as (_ & _ & _ & ->). exact IH.
Qed.

Lemma url_to_filename_entry_name (url : str) :
  Spec.entry_name (Main.url_to_filename url) = true.
Proof.
  pose proof (amended_filename_kept url) as Hkept.
  pose proof (force_pdf_has_suffix
                match Spec.content_value
                        (fun c => Spec.is_ampersand c || Spec.is_line_feed c) url with
                | Some v => Spec.replace_runs None (strip v)
                | None => lit "downloaded_file"
                end) as Hsuffix.
  fold (Spec.amended_filename url) in Hsuffix.
  rewrite <- url_to_filename_amended in Hkept, Hsuffix.
  unfold Spec.has_pdf_suffix in Hsuffix.
  apply andb_true_iff in Hsuffix as [Hlen _]. apply Nat.leb_le in Hlen.
  unfold Spec.entry_name. rewrite (kept_no_slash _ Hkept).
  assert (Hne : forall t : str, length t < 4 ->
                  str_eqb (Main.url_to_filename url) t = false).
  { intros t Ht. apply str_eqb_false. intros E. rewrite E in Hlen. lia. }
  rewrite !Hne by (cbn; lia). reflexivity.
Qed.

(** X5: whatever the identifier, the file name is the name of one
    directory entry (not empty, without a slash, neither [.] nor [..]),
    and the destination is that name directly under the destination
    directory: a download cannot reach outside the directory. *)
Theorem destination_is_inside_the_directory :
  forall dir pdf_id,
    Spec.entry_name (Main.url_to_filename (Spec.download_url pdf_id)) = true
    /\ Spec.destination dir pdf_id
       = if Nat.eqb (length dir) 0 || endswith dir [Fs.slash]
         then dir ++ Main.url_to_filename (Spec.download_url pdf_id)
         else dir ++ Fs.slash :: Main.url_to_filename (Spec.download_url pdf_id).
Proof.
  intros dir pdf_id.
  pose proof (url_to_filename_entry_name (Spec.download_url pdf_id)) as Hname.
  split; [exact Hname|].
  unfold Spec.destination, Fs.path_join. fold (Spec.download_url pdf_id).
  rewrite (entry_name_no_leading_slash _ Hname). reflexivity.
Qed.

Lemma path_join_inj dir a b :
  Spec.entry_name a = true -> Spec.entry_name b = true ->
  Fs.path_join dir a = Fs.path_join dir b -> a = b.
Proof.
  intros Ha Hb. unfold Fs.path_join.
  rewrite (entry_name_no_leading_slash _ Ha), (entry_name_no_leading_slash _ Hb).
  destruct (_ || _); intros E; apply app_inv_head in E; congruence.
Qed.

(** X6: two identifiers made of word characters, periods and hyphens
    that end with [_PDF] and differ are stored in different files: in a
    catalog of such identifiers no download finds the file of another
    one. *)
Theorem plain_identifiers_have_their_own_files :
  forall dir id1 id2,
    Forall (fun c => Spec.kept c = true) id1 ->
    Forall (fun c => Spec.kept c = true) id2 ->
    endswith id1 (lit "_PDF") = true ->
    endswith id2 (lit "_PDF") = true ->
    Spec.destination dir id1 = Spec.destination dir id2 ->
    id1 = id2.
Proof.
  intros dir id1 id2 Hk1 Hk2 Hs1 Hs2 Hdest.
  unfold Spec.destination in Hdest. fold (Spec.download_url id1) in Hdest.
  fold (Spec.download_url id2) in Hdest.
  apply path_join_inj in Hdest; try apply url_to_filename_entry_name.
  rewrite (url_to_filename_of_PDF_identifier id1 Hk1 Hs1),
    (url_to_filename_of_PDF_identifier id2 Hk2 Hs2) in Hdest.
  apply app_inv_tail in Hdest. exact Hdest.
Qed.

Lemma plain_identifiers_have_their_own_files_witness :
  lit "A_PDF" = lit "A_PDF".
Proof.
  apply (plain_identifiers_have_their_own_files (lit "PDFs") (lit "A_PDF")
           (lit "A_PDF"));
    try (repeat constructor); reflexivity.
Defined.

(** Without these conditions two identifiers can share a file: the
    characters that are replaced are lost. *)
Example identifiers_can_collide :
  Spec.destination (lit "PDFs") (lit "A B_PDF")
  = Spec.destination (lit "PDFs") (lit "A+B_PDF").
Proof. vm_compute. reflexivity. Qed.

(** ** More on the extraction *)

Lemma extract_row_appends data_row acc ids :
  Main.extract_row data_row acc = Ok ids ->
  ids = acc \/ exists s, ids = acc ++ [s] /\ endswith s (lit "_PDF") = true.
Proof.
  unfold Main.extract_row.
  destruct (truthy data_row); [|intros H; injection H as <-; auto].
  destruct (len data_row) as [n|e]; [|discriminate]. cbn [bind].
  destruct (0 <? n)%nat; [|intros H; injection H as <-; auto].
  destruct (item0 data_row) as [document_id|e]; [|discriminate]. cbn [bind].
  destruct document_id; try discriminate.
  destruct (endswith s (lit "_PDF")) eqn:Hs; intros H; injection H as <-; eauto.
Qed.

Lemma extract_rows_suffix record_data :
  forall acc ids,
    Main.extract_rows record_data acc = Ok ids ->
    Forall (fun id => endswith id (lit "_PDF") = true) acc ->
    Forall (fun id => endswith id (lit "_PDF") = true) ids
    /\ length ids <= length acc + length record_data.
Proof.
  induction record_data as [|data_row rest IH]; intros acc ids Hrun Hacc.
  - injection Hrun as <-. split; [exact Hacc | cbn; lia].
  - cbn [Main.extract_rows] in Hrun.
    destruct (Main.extract_row data_row acc) as [acc'|e] eqn:Hrow; [|discriminate].
    cbn [bind] in Hrun.
    apply extract_row_appends in Hrow as [->|(s & -> & Hs)].
    + destruct (IH _ _ Hrun Hacc) as [Hall Hlen]. split; [exact Hall | cbn; lia].
    + destruct (IH _ _ Hrun) as [Hall Hlen].
      * apply Forall_app. split; [exact Hacc | repeat constructor; exact Hs].
      * split; [exact Hall|]. rewrite length_app in Hlen. cbn in *. lia.
Qed.

Lemma extract_suffix json_loads raw_json_input ids :
  Main.extract_pdf_document_ids json_loads raw_json_input = Ok ids ->
  Forall (fun id => endswith id (lit "_PDF") = true) ids.
Proof.
  unfold Main.extract_pdf_document_ids.
  destruct (json_loads raw_json_input) as [api_response|e].
  - destruct (get api_response (lit "data") (PyDict [])) as [data|e];
      [|discriminate]. cbn [bind].
    destruct (get data (lit "Data") (PyList [])) as [record_data|e];
      [|discriminate]. cbn [bind].
    destruct (iterate record_data) as [rows|e]; [|discriminate]. cbn [bind].
    intros Hrun. apply (extract_rows_suffix rows [] ids Hrun). constructor.
  - destruct e; try discriminate. intros H. injection H as <-. constructor.
Qed.

(** X7: whatever the decoder delivers, when [extract_pdf_document_ids]
    returns a list, every identifier of the list ends with [_PDF]. *)
Theorem extracted_identifiers_end_with_PDF :
  forall json_loads raw_json_input ids,
    Main.extract_pdf_document_ids json_loads raw_json_input = Ok ids ->
    Forall (fun id => endswith id (lit "_PDF") = true) ids.
Proof.
  intros json_loads raw_json_input ids Hrun. eapply extract_suffix. exact Hrun.
Qed.

Lemma extracted_identifiers_end_with_PDF_witness :
  Forall (fun id => endswith id (lit "_PDF") = true) [lit "ABC_PDF"; lit "DEF_PDF"].
Proof.
  apply (extracted_identifiers_end_with_PDF Json.decode Spec.scenario_A).
  vm_compute. reflexivity.
Defined.

Lemma extract_row_falsy data_row acc :
  truthy data_row = false -> Main.extract_row data_row acc = Ok acc.
Proof. intros H. unfold Main.extract_row. rewrite H. reflexivity. Qed.

(** X8: the loop of the extraction passes over every row that is false in
    Python's sense ([null], [false], zero, an empty string, list or
    object), of whatever type, without an error: the result is the one for
    the list without those rows. *)
Theorem extract_rows_skips_falsy_rows :
  forall record_data acc,
    Main.extract_rows record_data acc
    = Main.extract_rows (List.filter truthy record_data) acc.
Proof.
  induction record_data as [|data_row rest IH]; intros acc; [reflexivity|].
  cbn [Main.extract_rows List.filter].
  destruct (truthy data_row) eqn:Htruthy.
  - cbn [Main.extract_rows].
    destruct (Main.extract_row data_row acc); cbn [bind]; [apply IH | reflexivity].
  - rewrite (extract_row_falsy _ _ Htruthy). cbn [bind]. apply IH.
Qed.

Example rows_with_gaps_are_accepted :
  Main.extract_pdf_document_ids Json.decode Spec.rows_with_gaps
  = Ok [lit "A_PDF"; lit "B_PDF"].
Proof. vm_compute. reflexivity. Qed.

Lemma endswith_short (s p : str) :
  length s < length p -> endswith s p = false.
Proof.
  intros Hlen. destruct (endswith s p) eqn:E; [|reflexivity].
  apply endswith_true in E as [pre ->]. rewrite length_app in Hlen. lia.
Qed.

Lemma extract_rows_of_characters (chars : list str) :
  Forall (fun s => length s <= 1) chars ->
  forall acc, Main.extract_rows (map PyStr chars) acc = Ok acc.
Proof.
  induction 1 as [|s chars Hs _ IH]; intros acc; [reflexivity|].
  cbn [map Main.extract_rows].
  assert (Hrow : Main.extract_row (PyStr s) acc = Ok acc).
  { unfold Main.extract_row. destruct s as [|c [|c' s]]; [reflexivity| |cbn in Hs; lia].
    cbn [truthy length Nat.eqb negb len bind Nat.ltb Nat.leb item0].
    rewrite endswith_short by (cbn; lia). reflexivity. }
  rewrite Hrow. cbn [bind]. apply IH.
Qed.

Lemma extract_rows_of_keys (keys : list str) :
  forall acc, Main.extract_rows (map PyStr keys) acc = Ok acc.
Proof.
  induction keys as [|key keys IH]; intros acc; [reflexivity|].
  cbn [map Main.extract_rows].
  assert (Hrow : Main.extract_row (PyStr key) acc = Ok acc).
  { unfold Main.extract_row. destruct key as [|c key]; [reflexivity|].
    cbn [truthy length Nat.eqb negb len bind Nat.ltb Nat.leb item0].
    rewrite endswith_short by (cbn; lia). reflexivity. }
  rewrite Hrow. cbn [bind]. apply IH.
Qed.

(** X9: a [Data] that is a string or an object instead of a list is no
    error and gives the empty list, whatever it holds: the loop then runs
    over single characters or over the keys, and takes the first character
    of each, which never ends with [_PDF]. *)
Theorem extract_of_string_or_object_is_empty :
  forall json_loads raw_json_input items data_items,
    json_loads raw_json_input = Ok (PyDict items) ->
    dict_get items (lit "data") (PyDict []) = PyDict data_items ->
    (exists s, dict_get data_items (lit "Data") (PyList []) = PyStr s)
    \/ (exists members, dict_get data_items (lit "Data") (PyList []) = PyDict members) ->
    Main.extract_pdf_document_ids json_loads raw_json_input = Ok [].
Proof.
  intros json_loads raw_json_input items data_items Hloads Hdata Hrows.
  unfold Main.extract_pdf_document_ids. rewrite Hloads. cbn [get bind].
  rewrite Hdata. cbn [get bind].
  destruct Hrows as [[s ->]|[members ->]]; cbn [iterate bind].
  - rewrite <- (map_map (fun c => [c]) PyStr).
    apply extract_rows_of_characters.
    apply Forall_map. apply Forall_forall. intros c _. cbn. lia.
  - rewrite <- (map_map fst PyStr). apply extract_rows_of_keys.
Qed.

Lemma extract_of_string_or_object_is_empty_witness :
  Main.extract_pdf_document_ids Json.decode Spec.rows_are_a_string = Ok [].
Proof.
  eapply (extract_of_string_or_object_is_empty Json.decode Spec.rows_are_a_string).
  - vm_compute. reflexivity.
  - vm_compute. reflexivity.
  - left. eexists. vm_compute. reflexivity.
Defined.

(** ** More on the sweep and the removal *)

Lemma disk_eq (d d' : Fs.disk) :
  Fs.nodes d = Fs.nodes d' -> Fs.locked d = Fs.locked d' -> d = d'.
Proof. destruct d, d'. cbn. intros -> ->. reflexivity. Qed.

Lemma swept_depends_on_node engine paths d d' path :
  Fs.nodes d !! path = Fs.nodes d' !! path ->
  Fs.locked d = Fs.locked d' ->
  Spec.swept engine paths d path = Spec.swept engine paths d' path.
Proof.
  intros Hn Hl. unfold Spec.swept.
  rewrite (valid_depends_on_node engine d d' path Hn).
  rewrite (removable_depends_on_node d d' path Hn Hl). reflexivity.
Qed.

(** X10: a second sweep over the same paths changes nothing: what the
    first one left is valid or cannot be removed. *)
Theorem sweep_twice_is_sweep_once :
  forall engine paths d,
    Validator.sweep engine paths (Validator.sweep engine paths d)
    = Validator.sweep engine paths d.
Proof.
  intros engine paths d. apply disk_eq; [|rewrite !sweep_locked; reflexivity].
  apply map_eq. intros path. rewrite (sweep_lookup engine paths (Validator.sweep _ _ _)).
  destruct (Spec.swept engine paths d path) eqn:Hswept.
  - rewrite sweep_lookup, Hswept.
    destruct (Spec.swept engine paths (Validator.sweep engine paths d) path);
      reflexivity.
  - rewrite (swept_depends_on_node engine paths _ d path), Hswept.
    + reflexivity.
    + rewrite sweep_lookup, Hswept. reflexivity.
    + apply sweep_locked.
Qed.

(** X11: the result of the sweep depends on the set of the paths only,
    not on their order and not on repetitions; so the order in which the
    workers of the pool take their tasks does not matter. *)
Theorem sweep_depends_on_the_set_of_paths :
  forall engine paths paths' d,
    (forall path, path ∈ paths <-> path ∈ paths') ->
    Validator.sweep engine paths d = Validator.sweep engine paths' d.
Proof.
  intros engine paths paths' d Hsame.
  apply disk_eq; [|rewrite !sweep_locked; reflexivity].
  apply map_eq. intros path. rewrite !sweep_lookup. unfold Spec.swept.
  rewrite (bool_decide_ext _ _ (Hsame path)). reflexivity.
Qed.

Lemma sweep_depends_on_the_set_of_paths_witness :
  Validator.sweep Spec.percent_engine
    [lit "/srv/PDFs/d.pdf"; lit "/srv/PDFs/a.pdf"] Spec.scenario_C_disk
  = Validator.sweep Spec.percent_engine
      [lit "/srv/PDFs/a.pdf"; lit "/srv/PDFs/d.pdf"; lit "/srv/PDFs/a.pdf"]
      Spec.scenario_C_disk.
Proof.
  apply (sweep_depends_on_the_set_of_paths Spec.percent_engine).
  intros path. rewrite !elem_of_cons. tauto.
Defined.


(** ** More on the walk *)

Lemma abspath_some dir path :
  Fs.abspath (Some dir) path = Ok (Spec.absolute dir path).
Proof.
  unfold Fs.abspath, Spec.absolute. destruct (startswith path [Fs.slash]); reflexivity.
Qed.

Lemma scan_filenames_some dir current_root ext names :
  forall matched,
    Validator.scan_filenames (Some dir) current_root ext names matched
    = (matched
       ++ map (fun name => Spec.absolute dir (Fs.path_join current_root name))
            (List.filter (fun name => endswith name ext) names),
       None).
Proof.
  induction names as [|name names IH]; intros matched;
    cbn [Validator.scan_filenames List.filter].
  - rewrite app_nil_r. reflexivity.
  - destruct (endswith name ext).
    + rewrite abspath_some, IH. cbn [map]. rewrite <- app_assoc. reflexivity.
    + apply IH.
Qed.

Lemma scan_walk_some dir ext steps :
  forall matched,
    Validator.scan_walk (Some dir) ext steps matched
    = (matched ++ Spec.matching_paths dir ext steps, None).
Proof.
  induction steps as [|[[current_root dirs] names] steps IH]; intros matched;
    cbn [Validator.scan_walk Spec.matching_paths flat_map].
  - rewrite app_nil_r. reflexivity.
  - rewrite scan_filenames_some, IH. cbn [fst snd].
    rewrite <- app_assoc. reflexivity.
Qed.

Lemma walk_with_working_directory dir root root_directory_path file_extension :
  Validator.walk_directory_and_extract_given_file_extension (Some dir) root
    root_directory_path file_extension
  = Ok (Spec.matching_paths dir (Spec.dotted file_extension)
          (Spec.listings root root_directory_path)).
Proof.
  unfold Validator.walk_directory_and_extract_given_file_extension.
  rewrite dotted_is_the_normalised_extension.
  fold (Spec.listings root root_directory_path).
  rewrite scan_walk_some. reflexivity.
Qed.

(** X13: as long as the working directory is there, the walk misses
    nothing and repeats nothing: it returns, listing after listing and in
    the order of each listing, the absolute path of every name that ends
    with the extension, one path for each such name. *)
Theorem walk_returns_every_matching_name :
  forall dir root root_directory_path file_extension,
    Validator.walk_directory_and_extract_given_file_extension (Some dir) root
      root_directory_path file_extension
    = Ok (Spec.matching_paths dir (Spec.dotted file_extension)
            (Spec.listings root root_directory_path))
    /\ length (Spec.matching_paths dir (Spec.dotted file_extension)
                 (Spec.listings root root_directory_path))
       = list_sum
           (map (fun step =>
                   length (List.filter
                             (fun name => endswith name (Spec.dotted file_extension))
                             (snd step)))
              (Spec.listings root root_directory_path)).
Proof.
  intros dir root root_directory_path file_extension. split.
  - apply walk_with_working_directory.
  - unfold Spec.matching_paths.
    induction (Spec.listings root root_directory_path) as [|step steps IH];
      [reflexivity|].
    cbn [flat_map map list_sum]. rewrite length_app, length_map, IH. reflexivity.
Qed.

Lemma join_last_component l f :
  Spec.ends_in_component (join Fs.slash (l ++ [f])) f.
Proof.
  induction l as [|p l IH]; [left; reflexivity|].
  cbn [app join]. destruct (l ++ [f]) as [|q rest] eqn:E.
  - destruct l; discriminate.
  - right. destruct IH as [H|[y H]]; rewrite H.
    + exists p. reflexivity.
    + exists (p ++ Fs.slash :: y). rewrite <- app_assoc. reflexivity.
Qed.

Lemma repeat_slash_component n x f :
  Spec.ends_in_component x f ->
  Spec.ends_in_component (repeat Fs.slash n ++ x) f.
Proof.
  intros H. destruct n as [|n]; [exact H|]. right.
  destruct H as [->|[y ->]].
  - exists (repeat Fs.slash n). cbn [repeat].
    rewrite repeat_cons, <- app_assoc. reflexivity.
  - exists (repeat Fs.slash (S n) ++ y). rewrite <- app_assoc. reflexivity.
Qed.

Lemma normpath_component x f :
  Spec.entry_name f = true -> Spec.ends_in_component x f ->
  Spec.ends_in_component (Fs.normpath x) f.
Proof.
  intros Hname Hends.
  pose proof (entry_name_parts f Hname) as (Hnil & Hslash & _).
  assert (Hf : f <> []).
  { intros ->. rewrite str_eqb_refl in Hnil. discriminate. }
  assert (Hsplit : exists comps, split Fs.slash x = comps ++ [f]).
  { destruct Hends as [->|[y ->]].
    - exists []. apply split_without_sep. exact Hslash.
    - exists (split Fs.slash y). apply split_app_last. exact Hslash. }
  destruct Hsplit as [comps Hsplit].
  unfold Fs.normpath. destruct x as [|c x].
  - destruct Hends as [E|[y E]]; [congruence | destruct y; discriminate].
  - rewrite Hsplit, fold_left_app. cbn [fold_left].
    rewrite (normpath_step_name _ _ _ Hname).
    pose proof (repeat_slash_component (Fs.initial_slashes (c :: x)) _ f
                  (join_last_component
                     (fold_left (Fs.normpath_step (Fs.initial_slashes (c :: x)))
                        comps []) f)) as Hcomp.
    destruct (repeat Fs.slash (Fs.initial_slashes (c :: x)) ++ _) as [|a l];
      [|exact Hcomp].
    destruct Hcomp as [E|[y E]]; [congruence | destruct y; discriminate].
Qed.

Lemma startswith_nil (s : str) : startswith s [] = true.
Proof. destruct s; reflexivity. Qed.

Lemma startswith_slash (s : str) :
  startswith s [Fs.slash] = true <-> exists rest, s = Fs.slash :: rest.
Proof.
  rewrite startswith_true. cbn [app]. reflexivity.
Qed.

Lemma normpath_absolute x :
  startswith x [Fs.slash] = true -> startswith (Fs.normpath x) [Fs.slash] = true.
Proof.
  intros H. pose proof H as Hx. apply startswith_slash in Hx as [rest ->].
  unfold Fs.normpath, Fs.initial_slashes. rewrite H.
  destruct (_ && _); cbn [repeat app]; apply startswith_slash; eauto.
Qed.

Lemma absolute_is_absolute dir path :
  startswith dir [Fs.slash] = true ->
  startswith (Spec.absolute dir path) [Fs.slash] = true.
Proof.
  intros Hdir. unfold Spec.absolute. apply normpath_absolute.
  destruct (startswith path [Fs.slash]) eqn:Hpath; [exact Hpath|].
  unfold Fs.path_join. rewrite Hpath.
  apply startswith_slash in Hdir as [rest ->].
  destruct (_ || _); apply startswith_slash; cbn [app]; eauto.
Qed.

Lemma absolute_component dir x f :
  Spec.entry_name f = true -> Spec.ends_in_component x f ->
  Spec.ends_in_component (Spec.absolute dir x) f.
Proof.
  intros Hname Hends. unfold Spec.absolute. apply normpath_component; [exact Hname|].
  destruct (startswith x [Fs.slash]); [exact Hends|].
  apply path_join_ends. exact Hends.
Qed.

Lemma take_while_app_stop (f : ascii -> bool) (l : str) (c : ascii) (r : str) :
  Forall (fun a => f a = true) l -> f c = false ->
  take_while f (l ++ c :: r) = l.
Proof.
  intros Hl Hc. induction Hl as [|a l Ha _ IH]; cbn [app take_while].
  - rewrite Hc. reflexivity.
  - rewrite Ha, IH. reflexivity.
Qed.

Lemma no_slash_Forall (f : str) :
  existsb (ascii_eqb Fs.slash) f = false ->
  Forall (fun a => negb (ascii_eqb a Fs.slash) = true) f.
Proof.
  induction f as [|a f IH]; cbn [existsb]; intros H; constructor.
  - apply orb_false_iff in H as [H _]. rewrite ascii_eqb_sym, H. reflexivity.
  - apply IH. apply orb_false_iff in H as [_ H]. exact H.
Qed.

Lemma basename_component path f :
  Spec.entry_name f = true -> Spec.ends_in_component path f ->
  Fs.basename path = f.
Proof.
  intros Hname Hends.
  pose proof (entry_name_parts f Hname) as (_ & Hslash & _).
  pose proof (no_slash_Forall f Hslash) as Hall.
  unfold Fs.basename. destruct Hends as [->|[y ->]].
  - rewrite take_while_all by (apply Forall_rev; exact Hall).
    apply rev_involutive.
  - rewrite rev_app_distr. cbn [rev]. rewrite <- app_assoc. cbn [app].
    rewrite take_while_app_stop.
    + apply rev_involutive.
    + apply Forall_rev. exact Hall.
    + rewrite ascii_eqb_refl. reflexivity.
Qed.

Lemma filenames_walk_entry_names t top step name :
  Spec.names_ok t = true -> In step (Fs.walk top t) -> In name (snd step) ->
  Spec.entry_name name = true.
Proof.
  intros Hok Hstep Hname.
  pose proof (walk_entry_names t top Hok) as Hall.
  rewrite List.Forall_forall in Hall. specialize (Hall step Hstep).
  rewrite List.Forall_forall in Hall. apply Hall. exact Hname.
Qed.

(** X14: when the working directory is an absolute path, every path that
    the walk returns is absolute, and the name that
    [get_filename_and_extension] takes from it is the name of the directory
    entry: it holds no slash and ends with the extension. *)
Theorem walk_paths_are_absolute_and_named :
  forall dir root_directory_path file_extension t,
    Spec.names_ok t = true ->
    startswith dir [Fs.slash] = true ->
    exists paths,
      Validator.walk_directory_and_extract_given_file_extension (Some dir) (Some t)
        root_directory_path file_extension = Ok paths
      /\ Forall
           (fun p =>
              startswith p [Fs.slash] = true
              /\ Spec.entry_name (Validator.get_filename_and_extension p) = true
              /\ endswith (Validator.get_filename_and_extension p)
                   (Spec.dotted file_extension) = true)
           paths.
Proof.
  intros dir root_directory_path file_extension t Hok Hdir.
  eexists. split; [apply walk_with_working_directory|].
  unfold Spec.matching_paths, Spec.listings.
  rewrite List.Forall_forall. intros p Hp.
  apply in_flat_map in Hp as (step & Hstep & Hp).
  apply in_map_iff in Hp as (name & <- & Hname).
  apply List.filter_In in Hname as [Hname Hext].
  pose proof (filenames_walk_entry_names t _ step name Hok Hstep Hname) as Hentry.
  split; [apply absolute_is_absolute; exact Hdir|].
  unfold Validator.get_filename_and_extension.
  rewrite (basename_component _ name Hentry).
  - split; [exact Hentry | exact Hext].
  - apply absolute_component; [exact Hentry|].
    apply path_join_ends. left. reflexivity.
Qed.

Lemma walk_paths_are_absolute_and_named_witness :
  exists paths,
    Validator.walk_directory_and_extract_given_file_extension (Some (lit "/srv"))
      (Some Spec.sample_tree) (lit "./PDFs") (lit "pdf") = Ok paths
    /\ Forall (fun p => startswith p [Fs.slash] = true) paths.
Proof.
  destruct (walk_paths_are_absolute_and_named (lit "/srv") (lit "./PDFs") (lit "pdf")
              Spec.sample_tree eq_refl eq_refl) as (paths & Hrun & Hall).
  exists paths. split; [exact Hrun|].
  eapply Forall_impl; [exact Hall|]. intros p H. apply H.
Defined.

(** ** The unused check for capital letters *)

Lemma isupper_lower_char (c : ascii) :
  isupper c = negb (ascii_eqb (lower_char c) c).
Proof. destruct c as [[] [] [] [] [] [] [] []]; vm_compute; reflexivity. Qed.

Lemma isupper_of_lower_char (c : ascii) : isupper (lower_char c) = false.
Proof. destruct c as [[] [] [] [] [] [] [] []]; vm_compute; reflexivity. Qed.

(** X15: [check_upper_case_letter] is true of a string exactly when
    [lower] changes the string; it is false of every string that [lower]
    has produced, and of the empty string. *)
Theorem check_upper_case_letter_and_lower :
  forall content_string,
    Validator.check_upper_case_letter content_string
    = negb (str_eqb (lower content_string) content_string)
    /\ Validator.check_upper_case_letter (lower content_string) = false
    /\ Validator.check_upper_case_letter [] = false.
Proof.
  intros content_string. unfold Validator.check_upper_case_letter, lower.
  split; [|split; [|reflexivity]].
  - induction content_string as [|c s IH]; [reflexivity|].
    cbn [existsb map str_eqb]. rewrite IH, isupper_lower_char, negb_andb.
    reflexivity.
  - induction content_string as [|c s IH]; [reflexivity|].
    cbn [existsb map]. rewrite IH, isupper_of_lower_char. reflexivity.
Qed.

(** ** The session, the catalog request and [main] of the downloader *)

Lemma cookie_header_cons c rest :
  Main.cookie_header (c :: rest)
  = match rest with
    | [] => fst c ++ lit "=" ++ snd c
    | _ :: _ => (fst c ++ lit "=" ++ snd c) ++ lit "; " ++ Main.cookie_header rest
    end.
Proof. unfold Main.cookie_header. destruct rest; reflexivity. Qed.

Lemma cookie_header_length_eq all_cookies :
  length (Main.cookie_header all_cookies) = Spec.cookie_header_length all_cookies.
Proof.
  unfold Spec.cookie_header_length.
  induction all_cookies as [|c rest IH]; [reflexivity|].
  rewrite cookie_header_cons. destruct rest as [|c' rest].
  - rewrite !length_app. cbn. lia.
  - rewrite !length_app, IH.
    cbn [map list_sum fold_right length lit list_ascii_of_string]. lia.
Qed.

(** X16: [start_browser_and_get_auth_cookies] returns a cookie string
    exactly when the browser delivered at least one cookie; the string is
    then not empty, and it holds every cookie as name, equals sign and
    value, with a semicolon and a blank between two cookies and nowhere
    else. *)
Theorem session_needs_a_cookie :
  forall browser,
    ((exists cookie_string,
         Main.start_browser_and_get_auth_cookies browser = Some cookie_string)
     <-> exists c rest, browser = Some (c :: rest))
    /\ (forall cookie_string,
          Main.start_browser_and_get_auth_cookies browser = Some cookie_string ->
          cookie_string <> []
          /\ exists all_cookies,
               browser = Some all_cookies
               /\ cookie_string = Main.cookie_header all_cookies
               /\ length cookie_string = Spec.cookie_header_length all_cookies).
Proof.
  intros browser.
  assert (Hcons : forall c rest, Main.cookie_header (c :: rest) <> []).
  { intros c rest E. apply (f_equal (@length ascii)) in E.
    rewrite cookie_header_length_eq in E. unfold Spec.cookie_header_length in E.
    cbn in E. lia. }
  unfold Main.start_browser_and_get_auth_cookies. split.
  - split.
    + intros [cookie_string H]. destruct browser as [[|c rest]|]; try discriminate.
      eauto.
    + intros (c & rest & ->). specialize (Hcons c rest).
      destruct (Main.cookie_header (c :: rest)); [contradiction | eauto].
  - intros cookie_string H. destruct browser as [all_cookies|]; [|discriminate].
    destruct (Main.cookie_header all_cookies) as [|a l] eqn:E; [discriminate|].
    injection H as <-. split; [discriminate|].
    exists all_cookies. rewrite <- E. repeat split. apply cookie_header_length_eq.
Qed.

Lemma fetch_json_data_world requests_get text_of cookie_value ts w :
  snd (Main.fetch_json_data requests_get text_of cookie_value ts w)
  = Main.World (Main.files w) (Main.requests w ++ [Main.target_url ts]).
Proof.
  unfold Main.fetch_json_data.
  destruct (requests_get _ cookie_value) as [e|r]; [reflexivity|].
  destruct (Main.content r); [reflexivity|].
  destruct (Main.raise_for_status r); [|reflexivity].
  destruct (_ || _); reflexivity.
Qed.

(** X17: [fetch_json_data] sends one request, to the address of the
    catalog, and touches no file.  It returns a text exactly when the
    server answered, the body arrived whole and the status is not one from
    400 to 599; the text is then the decoded body.  In every other case it
    returns [None], and it reports an authentication failure exactly for a
    whole answer with status 401 or 403. *)
Theorem fetch_json_data_returns_the_body_or_nothing :
  forall requests_get text_of cookie_value underscore_timestamp w,
    snd (Main.fetch_json_data requests_get text_of cookie_value
           underscore_timestamp w)
    = Main.World (Main.files w)
        (Main.requests w ++ [Main.target_url underscore_timestamp])
    /\ (forall text,
          snd (fst (Main.fetch_json_data requests_get text_of cookie_value
                      underscore_timestamp w)) = Some text
          <-> exists r,
                requests_get (Main.target_url underscore_timestamp) cookie_value
                = Main.Got r
                /\ Main.stream_error r = None
                /\ (Main.status_code r < 400 \/ 600 <= Main.status_code r)%Z
                /\ text = text_of (concat (Main.chunks r)))
    /\ (fst (fst (Main.fetch_json_data requests_get text_of cookie_value
                    underscore_timestamp w)) = Main.AuthenticationFailed
        <-> exists r,
              requests_get (Main.target_url underscore_timestamp) cookie_value
              = Main.Got r
              /\ Main.stream_error r = None
              /\ (Main.status_code r = 401 \/ Main.status_code r = 403)%Z).
Proof.
  intros requests_get text_of cookie_value ts w.
  split; [apply fetch_json_data_world|].
  unfold Main.fetch_json_data, Main.content, Main.raise_for_status.
  destruct (requests_get (Main.target_url ts) cookie_value) as [e|r].
  { cbn [fst snd]. split.
    - intros text. split; [discriminate | intros (r & H & _); discriminate].
    - split; [destruct e; discriminate | intros (r & H & _); discriminate]. }
  destruct (Main.stream_error r) as [e|] eqn:Hstream.
  { cbn [fst snd]. split.
    - intros text. split; [discriminate|].
      intros (r' & H & Hs & _). injection H as <-. congruence.
    - split; [destruct e; discriminate|].
      intros (r' & H & Hs & _). injection H as <-. congruence. }
  destruct ((400 <=? Main.status_code r)%Z && (Main.status_code r <? 600)%Z)
    eqn:Hrange.
  - apply andb_true_iff in Hrange as [Hlo Hhi].
    apply Z.leb_le in Hlo. apply Z.ltb_lt in Hhi. split.
    + intros text. split.
      * destruct (_ || _); discriminate.
      * intros (r' & H & _ & Hout & _). injection H as <-. lia.
    + destruct ((Main.status_code r =? 401)%Z || (Main.status_code r =? 403)%Z)
        eqn:Hauth; cbn [fst snd].
      * split; [|reflexivity]. intros _. exists r.
        apply orb_true_iff in Hauth as [H|H]; apply Z.eqb_eq in H; auto.
      * apply orb_false_iff in Hauth as [H1 H3].
        apply Z.eqb_neq in H1. apply Z.eqb_neq in H3. split; [discriminate|].
        intros (r' & H & _ & Hs). injection H as <-. lia.
  - apply andb_false_iff in Hrange. cbn [fst snd]. split.
    + intros text. split.
      * intros H. injection H as <-. exists r.
        split; [reflexivity|]. split; [exact Hstream|]. split; [|reflexivity].
        destruct Hrange as [H|H]; [apply Z.leb_gt in H | apply Z.ltb_ge in H]; lia.
      * intros (r' & H & _ & _ & ->). injection H as <-. reflexivity.
    + split; [discriminate|].
      intros (r' & H & _ & Hs). injection H as <-.
      destruct Hrange as [H|H]; [apply Z.leb_gt in H | apply Z.ltb_ge in H]; lia.
Qed.

Lemma makedirs_keeps d path d' :
  Fs.makedirs d path = inr d' ->
  Spec.untouched_but path d d' /\ Fs.nodes d' !! path = Some Fs.Directory.
Proof.
  unfold Fs.makedirs.
  destruct (Fs.nodes d !! path) as [[content|]|] eqn:Hnode; try discriminate.
  - intros H. injection H as <-. split; [apply untouched_but_refl | exact Hnode].
  - destruct (decide (path ∈ Fs.locked d)); [discriminate|].
    intros H. injection H as <-. cbn [Fs.nodes Fs.locked]. split.
    + split; [|split; [reflexivity|]].
      * intros q Hq. apply lookup_insert_ne. congruence.
      * intros x Hx. congruence.
    + apply lookup_insert_eq.
Qed.

(** X18: [create_directory] either fails, because a file has the name of
    the directory or because the system refuses, or leaves a directory at
    the path and every other entry as it was; a directory that is there
    already is accepted, so that a second call changes nothing. *)
Theorem create_directory_is_idempotent :
  forall d path,
    match Main.create_directory d path with
    | inr d' =>
        Spec.untouched_but path d d'
        /\ Fs.nodes d' !! path = Some Fs.Directory
        /\ Main.create_directory d' path = inr d'
    | inl Fs.FileExistsError => Fs.isfile d path = true
    | inl Fs.MakedirsRefused => Fs.nodes d !! path = None /\ path ∈ Fs.locked d
    end.
Proof.
  intros d path. unfold Main.create_directory.
  destruct (Fs.makedirs d path) as [e|d'] eqn:Hmake.
  - unfold Fs.makedirs, Fs.isfile in *.
    destruct (Fs.nodes d !! path) as [[content|]|]; try discriminate.
    + injection Hmake as <-. reflexivity.
    + destruct (decide (path ∈ Fs.locked d)); [|discriminate].
      injection Hmake as <-. auto.
  - destruct (makedirs_keeps _ _ _ Hmake) as [Hkeep Hdir].
    split; [exact Hkeep|]. split; [exact Hdir|].
    unfold Fs.makedirs. rewrite Hdir. reflexivity.
Qed.

Lemma main_cases browser ts requests_get text_of decode json_loads w :
  (exists e, Main.main browser ts requests_get text_of decode json_loads w
             = (Main.DirectoryError e, w))
  \/ exists d,
       Main.create_directory (Main.files w) (lit "PDFs") = inr d
       /\ (Main.main browser ts requests_get text_of decode json_loads w
           = (Main.SessionFailed, Main.World d (Main.requests w))
           \/ (exists cookie,
                 Main.start_browser_and_get_auth_cookies browser = Some cookie
                 /\ ((exists run_end,
                         Main.main browser ts requests_get text_of decode json_loads w
                         = (run_end,
                            Main.World d (Main.requests w ++ [Main.target_url ts]))
                         /\ (run_end = Main.DataMissing
                             \/ run_end = Main.NoIdentifiers
                             \/ exists e, run_end = Main.ExtractionError e))
                     \/ exists raw_data id ids,
                          Main.extract_pdf_document_ids json_loads raw_data
                          = Ok (id :: ids)
                          /\ Main.main browser ts requests_get text_of decode
                               json_loads w
                             = (Main.AllCompleted,
                                Main.download_all requests_get decode cookie
                                  (lit "PDFs") (id :: ids)
                                  (Main.World d
                                     (Main.requests w ++ [Main.target_url ts])))))).
Proof.
  unfold Main.main. cbv zeta.
  destruct (Main.create_directory (Main.files w) (lit "PDFs")) as [e|d];
    [left; eauto|].
  right. exists d. split; [reflexivity|].
  destruct (Main.start_browser_and_get_auth_cookies browser) as [cookie|];
    [|left; reflexivity].
  right. exists cookie. split; [reflexivity|].
  pose proof (fetch_json_data_world requests_get text_of cookie ts
                (Main.World d (Main.requests w))) as Hworld.
  destruct (Main.fetch_json_data requests_get text_of cookie ts
              (Main.World d (Main.requests w))) as [[report raw] w1].
  cbn [snd Main.files Main.requests] in Hworld. subst w1.
  destruct raw as [[|c text]|]; [left; eauto | | left; eauto].
  destruct (Main.extract_pdf_document_ids json_loads (c :: text)) as [[|id ids]|e]
    eqn:Hextract.
  - left. eauto.
  - right. exists (c :: text), id, ids. split; [exact Hextract | reflexivity].
  - left. eauto 6.
Qed.

(** X19: a run of [main] never changes or removes what the store holds,
    whatever the browser, the server and the decoder do: every entry that
    is there before the run is there after it, unchanged. *)
Theorem main_keeps_every_file :
  forall browser underscore_value requests_get text_of decode json_loads w,
    Spec.keeps_entries (Main.files w)
      (Main.files (snd (Main.main browser underscore_value requests_get text_of
                          decode json_loads w))).
Proof.
  intros browser ts requests_get text_of decode json_loads w.
  destruct (main_cases browser ts requests_get text_of decode json_loads w)
    as [[e ->]|(d & Hdir & Hrun)]; [apply keeps_entries_refl|].
  unfold Main.create_directory in Hdir.
  pose proof (untouched_but_keeps _ _ _ (proj1 (makedirs_keeps _ _ _ Hdir))) as Hd.
  destruct Hrun as [->|(cookie & _ & [(run_end & -> & _)|(raw & id & ids & _ & ->)])];
    cbn [snd Main.files]; try exact Hd.
  eapply keeps_entries_trans; [exact Hd|].
  apply (download_all_keeps requests_get decode cookie (lit "PDFs") (id :: ids)
           (Main.World d (Main.requests w ++ [Main.target_url ts]))).
Qed.

Lemma main_completed browser ts requests_get text_of decode json_loads w :
  fst (Main.main browser ts requests_get text_of decode json_loads w)
  = Main.AllCompleted ->
  exists d cookie raw_data pdf_ids,
    Main.create_directory (Main.files w) (lit "PDFs") = inr d
    /\ Main.start_browser_and_get_auth_cookies browser = Some cookie
    /\ snd (fst (Main.fetch_json_data requests_get text_of cookie ts
                   (Main.World d (Main.requests w)))) = Some raw_data
    /\ Main.extract_pdf_document_ids json_loads raw_data = Ok pdf_ids
    /\ pdf_ids <> []
    /\ snd (Main.main browser ts requests_get text_of decode json_loads w)
       = Main.download_all requests_get decode cookie (lit "PDFs") pdf_ids
           (Main.World d (Main.requests w ++ [Main.target_url ts])).
Proof.
  unfold Main.main. cbv zeta.
  destruct (Main.create_directory (Main.files w) (lit "PDFs")) as [e|d];
    [discriminate|].
  destruct (Main.start_browser_and_get_auth_cookies browser) as [cookie|];
    [|discriminate].
  pose proof (fetch_json_data_world requests_get text_of cookie ts
                (Main.World d (Main.requests w))) as Hworld.
  destruct (Main.fetch_json_data requests_get text_of cookie ts
              (Main.World d (Main.requests w))) as [[report raw] w1] eqn:Hfetch.
  cbn [fst snd Main.files Main.requests] in *. subst w1.
  destruct raw as [[|c text]|]; try discriminate.
  destruct (Main.extract_pdf_document_ids json_loads (c :: text)) as [[|id ids]|e]
    eqn:Hextract; try discriminate.
  intros _. exists d, cookie, (c :: text), (id :: ids).
  split; [reflexivity|]. split; [reflexivity|].
  split; [rewrite Hfetch; reflexivity|].
  split; [exact Hextract|]. split; [discriminate | reflexivity].
Qed.

(** X20: the requests of a run of [main].  None is sent when the
    directory cannot be made or the session fails.  Otherwise the first is
    the request of the catalog; it is the only one unless the run
    completes.  In a run that completes, the others are downloads of the
    identifiers that [extract_pdf_document_ids] returned for the text that
    [fetch_json_data] returned: they follow the order of that list, there
    is at most one for each identifier of the list, and the identifiers all
    end with [_PDF]. *)
Theorem main_requests_the_catalog_then_its_identifiers :
  forall browser underscore_value requests_get text_of decode json_loads w,
    exists sent,
      Main.requests (snd (Main.main browser underscore_value requests_get text_of
                            decode json_loads w))
      = Main.requests w ++ sent
      /\ match fst (Main.main browser underscore_value requests_get text_of
                      decode json_loads w) with
         | Main.DirectoryError _ | Main.SessionFailed => sent = []
         | Main.DataMissing | Main.NoIdentifiers | Main.ExtractionError _ =>
             sent = [Main.target_url underscore_value]
         | Main.AllCompleted =>
             exists d cookie raw_data pdf_ids downloads,
               Main.create_directory (Main.files w) (lit "PDFs") = inr d
               /\ Main.start_browser_and_get_auth_cookies browser = Some cookie
               /\ snd (fst (Main.fetch_json_data requests_get text_of cookie
                              underscore_value (Main.World d (Main.requests w))))
                  = Some raw_data
               /\ Main.extract_pdf_document_ids json_loads raw_data = Ok pdf_ids
               /\ sent = Main.target_url underscore_value :: downloads
               /\ sublist downloads (map Spec.download_url pdf_ids)
               /\ Forall (fun id => endswith id (lit "_PDF") = true) pdf_ids
         end.
Proof.
  intros browser ts requests_get text_of decode json_loads w.
  pose proof (main_completed browser ts requests_get text_of decode json_loads w)
    as Hcompleted.
  destruct (main_cases browser ts requests_get text_of decode json_loads w)
    as [[e Hmain]|(d & _ & Hrun)].
  { rewrite Hmain. exists []. rewrite app_nil_r. split; reflexivity. }
  destruct Hrun
    as [Hmain|(cookie & _ & [(run_end & Hmain & Hend)|(raw & id & ids & _ & Hmain)])].
  - rewrite Hmain. exists []. rewrite app_nil_r. split; reflexivity.
  - rewrite Hmain. exists [Main.target_url ts]. split; [reflexivity|].
    destruct Hend as [->|[->|[e ->]]]; reflexivity.
  - destruct Hcompleted
      as (d' & cookie' & raw' & pdf_ids & Hdir & Hsession & Hfetch & Hextract
          & _ & Hworld); [rewrite Hmain; reflexivity|].
    destruct (download_all_requests requests_get decode cookie' (lit "PDFs")
                pdf_ids (Main.World d' (Main.requests w ++ [Main.target_url ts])))
      as (downloads & Hsent & Hsub).
    exists (Main.target_url ts :: downloads). split.
    + rewrite Hworld, Hsent. cbn [Main.requests]. rewrite <- app_assoc. reflexivity.
    + rewrite Hmain. cbn [fst].
      exists d', cookie', raw', pdf_ids, downloads.
      repeat split; try assumption.
      eapply extract_suffix. exact Hextract.
Qed.

(** A whole run on scenario A: the catalog, then the two documents. *)
Example run_of_scenario_A :
  fst (Main.main Spec.two_cookies (lit "1700000000000") Spec.serves_scenario_A
         Spec.latin1 Spec.reads_login Json.decode (Main.World (Fs.Disk ∅ ∅) []))
  = Main.AllCompleted
  /\ Main.requests
       (snd (Main.main Spec.two_cookies (lit "1700000000000") Spec.serves_scenario_A
               Spec.latin1 Spec.reads_login Json.decode (Main.World (Fs.Disk ∅ ∅) [])))
     = [Main.target_url (lit "1700000000000"); Spec.download_url (lit "ABC_PDF");
        Spec.download_url (lit "DEF_PDF")]
  /\ Fs.nodes (Main.files
       (snd (Main.main Spec.two_cookies (lit "1700000000000") Spec.serves_scenario_A
               Spec.latin1 Spec.reads_login Json.decode (Main.World (Fs.Disk ∅ ∅) []))))
       !! lit "PDFs/DEF_PDF.pdf" = Some (Fs.File [Byte.x25; Byte.x50]).
Proof. repeat split; vm_compute; reflexivity. Qed.

(** ** The two programs as a whole *)

Lemma walk_result_ends cwd t root_directory_path file_extension paths :
  Spec.names_ok t = true ->
  Validator.walk_directory_and_extract_given_file_extension cwd (Some t)
    root_directory_path file_extension = Ok paths ->
  Forall (fun p => endswith p (Spec.dotted file_extension) = true) paths.
Proof.
  intros Hok.
  pose proof (scan_walk_ends cwd (Spec.dotted file_extension)
                (Fs.walk root_directory_path t)
                (walk_entry_names t root_directory_path Hok) []
                (@List.Forall_nil _ _)) as Hends.
  unfold Validator.walk_directory_and_extract_given_file_extension.
  rewrite dotted_is_the_normalised_extension.
  destruct (Validator.scan_walk _ _ _ _) as [matched [e|]]; cbn [fst] in Hends.
  - destruct e; intros H; injection H as <-; exact Hends.
  - intros H. injection H as <-. exact Hends.
Qed.

Lemma validator_main_is_a_sweep engine cpu_count cwd root d :
  exists paths,
    Validator.walk_directory_and_extract_given_file_extension cwd root
      (lit "./PDFs") (lit ".pdf") = Ok paths
    /\ Validator.main engine cpu_count cwd root d
       = Ok (Validator.MAX_WORKERS cpu_count, Validator.sweep engine paths d).
Proof.
  unfold Validator.main.
  destruct (Validator.walk_directory_and_extract_given_file_extension cwd root
              (lit "./PDFs") (lit ".pdf")) as [paths|e] eqn:Hwalk.
  - exists paths. split; [reflexivity|]. cbn [bind]. destruct paths; reflexivity.
  - exfalso. revert Hwalk.
    unfold Validator.walk_directory_and_extract_given_file_extension.
    destruct (Validator.scan_walk _ _ _ _) as [matched [e'|]];
      [destruct e'|]; discriminate.
Qed.

(** X21: [main] of the validator never removes or changes a file whose
    path does not end with [.pdf], letter for letter, whatever the PDF
    engine says about it; and it changes nothing at all when there is
    nothing at the root. *)
Theorem validator_main_spares_other_files :
  forall engine cpu_count cwd t d path,
    Spec.names_ok t = true ->
    endswith path (lit ".pdf") = false ->
    (exists d',
        Validator.main engine cpu_count cwd (Some t) d
        = Ok (Validator.MAX_WORKERS cpu_count, d')
        /\ Fs.nodes d' !! path = Fs.nodes d !! path)
    /\ Validator.main engine cpu_count cwd None d
       = Ok (Validator.MAX_WORKERS cpu_count, d).
Proof.
  intros engine cpu_count cwd t d path Hok Hother. split; [|reflexivity].
  destruct (validator_main_is_a_sweep engine cpu_count cwd (Some t) d)
    as (paths & Hwalk & ->).
  eexists. split; [reflexivity|].
  rewrite sweep_lookup. unfold Spec.swept.
  destruct (decide (path ∈ paths)) as [Hin|Hout].
  - pose proof (walk_result_ends _ _ _ _ _ Hok Hwalk) as Hends.
    rewrite List.Forall_forall in Hends.
    apply list_elem_of_In in Hin. specialize (Hends path Hin).
    change (Spec.dotted (lit ".pdf")) with (lit ".pdf") in Hends. congruence.
  - rewrite bool_decide_eq_false_2 by exact Hout. reflexivity.
Qed.

Lemma validator_main_spares_other_files_witness :
  exists d',
    Validator.main Spec.percent_engine (Some 8) (Some (lit "/srv"))
      (Some Spec.sample_tree) Spec.scenario_C_disk
    = Ok (Validator.MAX_WORKERS (Some 8), d')
    /\ Fs.nodes d' !! lit "/srv/PDFs/notes.txt"
       = Fs.nodes Spec.scenario_C_disk !! lit "/srv/PDFs/notes.txt".
Proof.
  apply (validator_main_spares_other_files Spec.percent_engine (Some 8)
           (Some (lit "/srv")) Spec.sample_tree Spec.scenario_C_disk
           (lit "/srv/PDFs/notes.txt")); reflexivity.
Defined.

(** X22: a name that [url_to_filename] has made is a name that it keeps:
    taken as an identifier, it gives itself. *)
Theorem url_to_filename_keeps_its_own_names :
  forall url,
    Main.url_to_filename (Spec.download_url (Main.url_to_filename url))
    = Main.url_to_filename url.
Proof.
  intros url.
  pose proof (amended_filename_kept url) as Hkept.
  pose proof (force_pdf_has_suffix
                match Spec.content_value
                        (fun c => Spec.is_ampersand c || Spec.is_line_feed c) url with
                | Some v => Spec.replace_runs None (strip v)
                | None => lit "downloaded_file"
                end) as Hsuffix.
  fold (Spec.amended_filename url) in Hsuffix.
  rewrite <- url_to_filename_amended in Hkept, Hsuffix.
  rewrite (url_to_filename_of_kept _ Hkept). unfold Spec.force_pdf.
  rewrite Hsuffix. reflexivity.
Qed.
